(** * NanoSense MQTT emulator: a shallow embedding of
      [src/emulation/mqtt_emulator.py] and the properties of its signal
      model and publish scheduler.

    Numbers are IEEE binary64 values (Rocq's primitive [float]), as Python's
    [float] is; the integer literals the source mixes in ([10], [35], [0],
    [200], ...) are small and convert exactly, so they are written as floats.
    The global random generator, the clocks, the broker and the signal handler
    are the environment: an [Oracle] fixes what each of their calls answers and
    a [World] counts the calls made so far and records what the program did. *)

From Stdlib Require Import ZArith Lia List String Floats DecimalString.
From Stdlib Require Ascii DecimalFacts DecimalNat DecimalPos DecimalZ.
From stdpp Require Import base option list gmap.

Set Warnings "-inexact-float".
Set Default Proof Using "Type".

Local Open Scope string_scope.
Local Open Scope float_scope.

(* ================================================================== *)
(** * Python built-ins on floats *)

(** [min(a, b)] keeps its first argument unless the second is smaller;
    [max(a, b)] keeps its first argument unless the second is greater. *)
Definition gtb (x y : float) : bool := y <? x.
Definition py_min (a b : float) : float := if b <? a then b else a.
Definition py_max (a b : float) : float := if gtb b a then b else a.

(** [def clamp(v, lo, hi): return max(lo, min(hi, v))] *)
Definition clamp (x lo hi : float) : float := py_max lo (py_min hi x).

(** The integer nearest to [num * 2^e], ties to the even one. *)
Definition round_half_even (num e : Z) : Z :=
  match e with
  | Zneg p =>
      let den := Z.pow_pos 2 p in
      let q := (num / den)%Z in
      match (2 * (num mod den) ?= den)%Z with
      | Lt => q
      | Gt => (q + 1)%Z
      | Eq => if Z.even q then q else (q + 1)%Z
      end
  | _ => (num * 2 ^ e)%Z
  end.

Definition pow10 (ndigits : nat) : positive :=
  Nat.iter ndigits (Pos.mul 10) 1%positive.

(** [round(x, ndigits)] for a float and [0 <= ndigits]: CPython prints the
    exact binary value with [ndigits] decimals, rounding half to even, and
    reads the decimal string back as the nearest double; infinities and NaN
    round to themselves, and past 323 digits nothing changes. *)
Definition py_round (x : float) (ndigits : nat) : float :=
  if (323 <? ndigits)%nat then x else
  match Prim2SF x with
  | S754_finite s m e =>
      match round_half_even (Zpos m * Zpos (pow10 ndigits)) e with
      | Zpos k =>
          SF2Prim (SFdiv prec emax (S754_finite s k 0)
                                   (S754_finite false (pow10 ndigits) 0))
      | _ => if s then neg_zero else zero
      end
  | _ => x
  end.

(* ================================================================== *)
(** * The environment *)

(** What a call of [client.publish] does: hand back a result code (the
    source never looks at it), or raise. *)
Inductive outcome := Returned (rc : Z) | Raised.

(** The exceptions of a run: the one of [client.publish], the one of a
    dictionary without the key, and the three of [time.sleep]. *)
Inductive exn :=
| PublishError | KeyError (key : Z)
| ValueError | OverflowError | OSError.

Record Oracle := {
  rand_unit : nat -> float;     (* the k-th draw read by [random.random()] *)
  rand_normal : nat -> float;   (* the k-th draw as the deviate inside [random.gauss] *)
  rand_bits : nat -> Z;         (* the k-th draw as the integer behind [random.randint] *)
  clock_text : nat -> string;   (* the k-th clock reading, as [rfc3339_now] formats it *)
  clock_secs : nat -> float;    (* the k-th clock reading, as [time.time()] returns it *)
  publish_outcome : nat -> outcome;  (* what the k-th [client.publish] does *)
  stop_flag : nat -> bool;      (* [stop["flag"]] at the k-th test of the loop *)
  sleep_refused : nat -> bool;  (* whether the operating system refuses a sleep
                                   asked for after k clock readings *)
}.

Module Status.
Record t := { online : bool; fw : string; rssi_dbm : Z; ts : string }.
End Status.

Module Bme.
Record t := {
  t_c : float; rh_pct : float; p_pa : float; gas_ohm : float;
  iaq : float; voc_index : float; co2_eq : float; ts : string }.
End Bme.

Module Sps.
Record t := { pm1_0 : float; pm2_5 : float; pm4_0 : float; pm10 : float; ts : string }.
End Sps.

Module Dp.
Record t := { dp_pa : float; ts : string }.
End Dp.

(** The dictionary handed to [json.dumps]; the encoding itself is not modelled. *)
Inductive payload :=
| PStatus (p : Status.t)
| PBme (p : Bme.t)
| PSps (p : Sps.t)
| PDp (p : Dp.t).

Inductive event :=
| EPublish (topic : string) (body : payload) (qos : Z) (retain : bool)
| ESleep (secs : float)
| ELoopStop
| EDisconnect.

Record World := {
  n_rng : nat;      (* draws taken from the generator *)
  n_clock : nat;    (* clock readings taken *)
  n_pub : nat;      (* [client.publish] calls made *)
  n_poll : nat;     (* tests of the stop flag made *)
  trace : list event;
}.

Definition world0 : World :=
  {| n_rng := 0; n_clock := 0; n_pub := 0; n_poll := 0; trace := [] |}.

Definition tick_rng (w : World) : World :=
  {| n_rng := S (n_rng w); n_clock := n_clock w; n_pub := n_pub w;
     n_poll := n_poll w; trace := trace w |}.
Definition tick_clock (w : World) : World :=
  {| n_rng := n_rng w; n_clock := S (n_clock w); n_pub := n_pub w;
     n_poll := n_poll w; trace := trace w |}.
Definition tick_pub (w : World) : World :=
  {| n_rng := n_rng w; n_clock := n_clock w; n_pub := S (n_pub w);
     n_poll := n_poll w; trace := trace w |}.
Definition tick_poll (w : World) : World :=
  {| n_rng := n_rng w; n_clock := n_clock w; n_pub := n_pub w;
     n_poll := S (n_poll w); trace := trace w |}.
Definition emit (e : event) (w : World) : World :=
  {| n_rng := n_rng w; n_clock := n_clock w; n_pub := n_pub w;
     n_poll := n_poll w; trace := trace w ++ [e] |}.

(** ** Computations: a state monad over [World] in which an exception keeps
    the world reached so far. *)
Inductive result (A : Type) := Val (a : A) | Exc (e : exn).
Arguments Val {A} a.
Arguments Exc {A} e.

Definition M (A : Type) : Type := World -> result A * World.

Definition ret {A} (a : A) : M A := fun w => (Val a, w).
Definition raise {A} (e : exn) : M A := fun w => (Exc e, w).
Definition bind {A B} (c : M A) (k : A -> M B) : M B :=
  fun w => match c w with
           | (Val a, w') => k a w'
           | (Exc e, w') => (Exc e, w')
           end.

Notation "'let*' p ':=' c 'in' k" := (bind c (fun p => k))
  (at level 10, p pattern, c at level 100, k at level 200).
Notation "c ;;; k" := (bind c (fun _ => k))
  (at level 100, right associativity).

(** [for x in xs: body(x)], threading a value through the iterations. *)
Fixpoint for_each {A S} (body : S -> A -> M S) (s : S) (xs : list A) : M S :=
  match xs with
  | [] => ret s
  | x :: rest => let* s' := body s x in for_each body s' rest
  end.

(** [[f(x) for x in xs]] and [for x in xs: f(x)] over mutable objects: each
    call hands back the object as it left it. *)
Fixpoint map_each {A B} (f : A -> M B) (xs : list A) : M (list B) :=
  match xs with
  | [] => ret []
  | x :: rest => let* y := f x in let* ys := map_each f rest in ret (y :: ys)
  end.

(* ================================================================== *)
(** * The program *)

Section Program.
Variable o : Oracle.

(** ** The calls into the environment *)

(** [random.random()] *)
Definition random : M float :=
  fun w => (Val (rand_unit o (n_rng w)), tick_rng w).

(** [random.uniform(a, b)]: [a + (b - a) * self.random()] *)
Definition uniform (a b : float) : M float :=
  let* u := random in ret (a + (b - a) * u).

(** [random.gauss(mu, sigma)]: [mu + z * sigma] for a standard normal [z];
    how the generator computes [z] is left to the oracle. *)
Definition gauss (mu sigma : float) : M float :=
  fun w => (Val (mu + rand_normal o (n_rng w) * sigma), tick_rng w).

(** [random.randint(a, b)]: [a] plus a draw below [b - a + 1] *)
Definition randint (a b : Z) : M Z :=
  fun w => (Val (a + rand_bits o (n_rng w) mod (b - a + 1))%Z, tick_rng w).

(** [def rfc3339_now()] *)
Definition rfc3339_now : M string :=
  fun w => (Val (clock_text o (n_clock w)), tick_clock w).

(** [time.time()] *)
Definition time_time : M float :=
  fun w => (Val (clock_secs o (n_clock w)), tick_clock w).

(** What [time.sleep(secs)] finds wrong with a float before it sleeps
    (CPython 3.11, 64-bit Linux): the seconds become nanoseconds, rounded
    away from zero, which must fit a signed 64-bit count and not be
    negative.  The test of the range lets [2^63] itself through, and the count
    it is then turned into is the lowest one, which is negative. *)
Definition sleep_check (secs : float) : option exn :=
  if is_nan secs then Some ValueError
  else
    let ns := secs * 1000000000 in
    if (ns <? -9223372036854775808) || (9223372036854775808 <? ns)
    then Some OverflowError
    else if (ns <? 0) || (ns =? 9223372036854775808) then Some ValueError
    else None.

(** What a call of [time.sleep(secs)] made after [k] clock readings raises,
    if anything: the operating system may refuse a duration that passed the
    check (it does so for a deadline beyond what its clock can hold). *)
Definition sleep_outcome (secs : float) (k : nat) : option exn :=
  match sleep_check secs with
  | Some x => Some x
  | None => if sleep_refused o k then Some OSError else None
  end.

(** [time.sleep(secs)]: the call is recorded, then it returns or raises. *)
Definition time_sleep (secs : float) : M unit :=
  fun w =>
    let w' := emit (ESleep secs) w in
    match sleep_outcome secs (n_clock w) with
    | Some x => (Exc x, w')
    | None => (Val tt, w')
    end.

(** [client.publish(topic, json.dumps(payload), qos=qos, retain=retain)]:
    the call is recorded, then the broker side answers or raises. *)
Definition client_publish (topic : string) (body : payload) (qos : Z)
    (retain : bool) : M unit :=
  fun w =>
    let w' := tick_pub (emit (EPublish topic body qos retain) w) in
    match publish_outcome o (n_pub w) with
    | Returned _ => (Val tt, w')
    | Raised => (Exc PublishError, w')
    end.

Definition client_loop_stop : M unit := fun w => (Val tt, emit ELoopStop w).
Definition client_disconnect : M unit := fun w => (Val tt, emit EDisconnect w).

(** [stop["flag"]], as the [while] test reads it *)
Definition read_stop_flag : M bool :=
  fun w => (Val (stop_flag o (n_poll w)), tick_poll w).
End Program.

(** ** [class RandomWalk] *)
Module RandomWalk.
Record t := { v : float; step : float; lo : float; hi : float }.

(** [RandomWalk(start, step, lo, hi)] *)
Definition init (start step lo hi : float) : t :=
  {| v := start; step := step; lo := lo; hi := hi |}.

Definition set_v (self : t) (x : float) : t :=
  {| v := x; step := step self; lo := lo self; hi := hi self |}.

(** [def next(self, jitter=0.5)]: the value returned and the walk as the
    call leaves it. *)
Definition next (o : Oracle) (self : t) (jitter : float) : M (float * t) :=
  let* d := uniform o (- step self) (step self) in
  let self := set_v self (v self + d) in
  let* g := gauss o 0 jitter in
  let self := set_v self (v self + g * 0.01 * (hi self - lo self)) in
  let self := set_v self (clamp (v self) (lo self) (hi self)) in
  ret (v self, self).

Definition default_jitter : float := 0.5.
End RandomWalk.

(** [str(n)] for an integer, as an f-string prints it. *)
Definition str_of_int (n : Z) : string := NilZero.string_of_int (Z.to_int n).

(** ** [class DeviceEmulator] *)
Module DeviceEmulator.
Import RandomWalk.

(** The [client] field is the one broker connection of the process, which
    the [World] stands for. *)
Record t := {
  site : string; room : string; device : string;
  interval : float; qos : Z; dp_channels : list Z;
  temp : RandomWalk.t; rh : RandomWalk.t; press_pa : RandomWalk.t;
  gas : RandomWalk.t;
  iaq : RandomWalk.t; voc_index : RandomWalk.t; co2_eq : RandomWalk.t;
  pm1 : RandomWalk.t; pm25 : RandomWalk.t; pm4 : RandomWalk.t;
  pm10 : RandomWalk.t;
  dp_walk : gmap Z RandomWalk.t;
}.

Definition with_bme (self : t) (temp' rh' press' gas' iaq' voc' co2' : RandomWalk.t) : t :=
  {| site := site self; room := room self; device := device self;
     interval := interval self; qos := qos self; dp_channels := dp_channels self;
     temp := temp'; rh := rh'; press_pa := press'; gas := gas';
     iaq := iaq'; voc_index := voc'; co2_eq := co2';
     pm1 := pm1 self; pm25 := pm25 self; pm4 := pm4 self; pm10 := pm10 self;
     dp_walk := dp_walk self |}.

Definition with_sps (self : t) (pm1' pm25' pm4' pm10' : RandomWalk.t) : t :=
  {| site := site self; room := room self; device := device self;
     interval := interval self; qos := qos self; dp_channels := dp_channels self;
     temp := temp self; rh := rh self; press_pa := press_pa self; gas := gas self;
     iaq := iaq self; voc_index := voc_index self; co2_eq := co2_eq self;
     pm1 := pm1'; pm25 := pm25'; pm4 := pm4'; pm10 := pm10';
     dp_walk := dp_walk self |}.

Definition with_dp_walk (self : t) (m : gmap Z RandomWalk.t) : t :=
  {| site := site self; room := room self; device := device self;
     interval := interval self; qos := qos self; dp_channels := dp_channels self;
     temp := temp self; rh := rh self; press_pa := press_pa self; gas := gas self;
     iaq := iaq self; voc_index := voc_index self; co2_eq := co2_eq self;
     pm1 := pm1 self; pm25 := pm25 self; pm4 := pm4 self; pm10 := pm10 self;
     dp_walk := m |}.

Section Methods.
Variable o : Oracle.

(** The body of [for ch in dp_channels:] in [__init__] *)
Definition seed_dp (walks : gmap Z RandomWalk.t) (ch : Z) : M (gmap Z RandomWalk.t) :=
  let base := if (ch =? 1)%Z then -80.0 else -95.0 in
  let* d := uniform o (-8) 8 in
  ret (<[ch := RandomWalk.init (base + d) 3.0 (-300) 20]> walks).

(** [def __init__(self, client, site, room, device, interval, qos, dp_channels)] *)
Definition init (site room device : string) (interval : float) (qos : Z)
    (dp_channels : list Z) : M t :=
  let* t0 := uniform o 18 23 in
  let* h0 := uniform o 35 55 in
  let* walks := for_each seed_dp ∅ dp_channels in
  ret {| site := site; room := room; device := device;
         interval := interval; qos := qos; dp_channels := dp_channels;
         temp := RandomWalk.init t0 0.05 10 35;
         rh := RandomWalk.init h0 0.2 15 90;
         press_pa := RandomWalk.init 101325 30 98000 104000;
         gas := RandomWalk.init 50000 500 1000 200000;
         iaq := RandomWalk.init 35.0 2.5 5.0 250.0;
         voc_index := RandomWalk.init 15.0 2.0 0.0 500.0;
         co2_eq := RandomWalk.init 600.0 15.0 400.0 2000.0;
         pm1 := RandomWalk.init 3 0.5 0 100;
         pm25 := RandomWalk.init 6 0.8 0 200;
         pm4 := RandomWalk.init 8 1.0 0 250;
         pm10 := RandomWalk.init 10 1.2 0 300;
         dp_walk := walks |}.

(** [@property def base(self)] and the topic methods *)
Definition base (self : t) : string :=
  "iot/" ++ site self ++ "/" ++ room self ++ "/" ++ device self.
Definition topic_bme (self : t) : string := base self ++ "/telemetry/bme688".
Definition topic_sps (self : t) : string := base self ++ "/telemetry/sps30".
Definition topic_dp (self : t) (ch : Z) : string :=
  base self ++ "/telemetry/dp/" ++ str_of_int ch.
Definition topic_status (self : t) : string := base self ++ "/status".

(** [def publish_status(self, online)] *)
Definition publish_status (self : t) (online : bool) : M unit :=
  let* rssi := randint o (-70) (-45) in
  let* now := rfc3339_now o in
  let payload :=
    {| Status.online := online; Status.fw := "emu-1.1.0";
       Status.rssi_dbm := rssi; Status.ts := now |} in
  client_publish o (topic_status self) (PStatus payload) (qos self) true.

(** [def _bme_payload(self, ts)] *)
Definition _bme_payload (self : t) (ts : string) : M (Bme.t * t) :=
  let* (x, temp') := RandomWalk.next o (temp self) default_jitter in
  let t_c := py_round x 2 in
  let* (x, rh') := RandomWalk.next o (rh self) default_jitter in
  let rh_ := py_round x 1 in
  let* (x, press') := RandomWalk.next o (press_pa self) default_jitter in
  let p_pa := py_round x 0 in
  let* (x, gas') := RandomWalk.next o (gas self) default_jitter in
  let gas_ := py_round x 0 in
  let* (iaq_val, iaq') := RandomWalk.next o (iaq self) default_jitter in
  let* r := random o in
  let* iaq_val :=
    (if r <? 0.02
     then let* e := uniform o 20 80 in ret (clamp (iaq_val + e) 5.0 250.0)
     else ret iaq_val) in
  let* (x, voc') := RandomWalk.next o (voc_index self) default_jitter in
  let* n := uniform o (-3) 3 in
  let voc_val := clamp (x + n + 0.3 * (iaq_val - 35.0)) 0.0 500.0 in
  let* (co2_val, co2') := RandomWalk.next o (co2_eq self) default_jitter in
  let* r := random o in
  let* co2_val :=
    (if r <? 0.02
     then let* e := uniform o 100 300 in ret (clamp (co2_val + e) 400.0 2000.0)
     else ret co2_val) in
  ret ({| Bme.t_c := t_c; Bme.rh_pct := rh_; Bme.p_pa := p_pa;
          Bme.gas_ohm := gas_; Bme.iaq := py_round iaq_val 1;
          Bme.voc_index := py_round voc_val 1;
          Bme.co2_eq := py_round co2_val 0; Bme.ts := ts |},
       with_bme self temp' rh' press' gas' iaq' voc' co2').

(** [def _sps_payload(self, ts)] *)
Definition _sps_payload (self : t) (ts : string) : M (Sps.t * t) :=
  let* r := random o in
  let* self :=
    (if r <? 0.015
     then
       let* bump := uniform o 10 30 in
       let pm25' := set_v (pm25 self) (clamp (v (pm25 self) + bump) 0 200) in
       let pm10' := set_v (pm10 self) (clamp (v (pm10 self) + bump * 1.2) 0 300) in
       ret (with_sps self (pm1 self) pm25' (pm4 self) pm10')
     else ret self) in
  let* (x1, pm1') := RandomWalk.next o (pm1 self) default_jitter in
  let* (x25, pm25') := RandomWalk.next o (pm25 self) default_jitter in
  let* (x4, pm4') := RandomWalk.next o (pm4 self) default_jitter in
  let* (x10, pm10') := RandomWalk.next o (pm10 self) default_jitter in
  ret ({| Sps.pm1_0 := py_round x1 1; Sps.pm2_5 := py_round x25 1;
          Sps.pm4_0 := py_round x4 1; Sps.pm10 := py_round x10 1;
          Sps.ts := ts |},
       with_sps self pm1' pm25' pm4' pm10').

(** [def _dp_payload(self, ch, ts)]; [self.dp_walk[ch]] raises [KeyError]
    on a channel without a walk. *)
Definition _dp_payload (self : t) (ch : Z) (ts : string) : M (Dp.t * t) :=
  match dp_walk self !! ch with
  | None => raise (KeyError ch)
  | Some walk =>
      let* (x, walk') := RandomWalk.next o walk default_jitter in
      ret ({| Dp.dp_pa := py_round x 1; Dp.ts := ts |},
           with_dp_walk self (<[ch := walk']> (dp_walk self)))
  end.

(** The body of [for ch in self.dp_channels:] in [publish_once] *)
Definition publish_dp (ts : string) (self : t) (ch : Z) : M t :=
  let* (p, self) := _dp_payload self ch ts in
  client_publish o (topic_dp self ch) (PDp p) (qos self) false ;;;
  ret self.

(** [def publish_once(self)] *)
Definition publish_once (self : t) : M t :=
  let* ts := rfc3339_now o in
  let* (p, self) := _bme_payload self ts in
  client_publish o (topic_bme self) (PBme p) (qos self) false ;;;
  let* (p, self) := _sps_payload self ts in
  client_publish o (topic_sps self) (PSps p) (qos self) false ;;;
  for_each (publish_dp ts) self (dp_channels self).
End Methods.
End DeviceEmulator.

(** ** [def main()] *)

(** What [parse_args] hands over, with the device and channel lists already
    split; the broker connection [build_client] opens is the [World]. *)
Record Args := {
  arg_site : string; arg_room : string; arg_devices : list string;
  arg_dp_channels : list Z; arg_interval : float; arg_qos : Z;
}.

(** The block of a [finally:] run after what its [try:] left. *)
Definition run_finally {A} (left : result A * World) (fin : M unit) : result A * World :=
  match fin (snd left) with
  | (Val _, w) => (fst left, w)
  | (Exc e, w) => (Exc e, w)
  end.

Section Main.
Variable o : Oracle.
Import DeviceEmulator.

(** [for emu in emus: emu.publish_status(online)] *)
Definition announce (online : bool) (emus : list DeviceEmulator.t) : M unit :=
  for_each (fun _ emu => publish_status o emu online) tt emus.

(** The comprehension creating the emulators, then the online announcement *)
Definition startup (args : Args) : M (list DeviceEmulator.t) :=
  let* emus :=
    map_each (fun dev => init o (arg_site args) (arg_room args) dev
                           (arg_interval args) (arg_qos args) (arg_dp_channels args))
             (arg_devices args) in
  announce true emus ;;;
  ret emus.

(** The body of [while not stop["flag"]:] *)
Definition loop_body (interval : float) (emus : list DeviceEmulator.t)
    : M (list DeviceEmulator.t) :=
  let* start := time_time o in
  let* emus := map_each (publish_once o) emus in
  let* now := time_time o in
  let sleep := interval - (now - start) in
  (if gtb sleep 0 then time_sleep o sleep else ret tt) ;;;
  ret emus.

(** The [while] loop; [None] when [fuel] tests of the flag all found it unset. *)
Fixpoint main_loop (fuel : nat) (interval : float) (emus : list DeviceEmulator.t)
    (w : World) : option (result (list DeviceEmulator.t) * World) :=
  match fuel with
  | O => None
  | S fuel' =>
      match read_stop_flag o w with
      | (Val true, w1) => Some (Val emus, w1)
      | (Val false, w1) =>
          match loop_body interval emus w1 with
          | (Val emus', w2) => main_loop fuel' interval emus' w2
          | (Exc e, w2) => Some (Exc e, w2)
          end
      | (Exc e, w1) => Some (Exc e, w1)
      end
  end.

(** The [finally:] block of [main].  [publish_status] reads only the
    emulator's site, room, device and qos, which no method assigns, so the
    emulators as created stand for the objects the loop has advanced. *)
Definition shutdown (emus : list DeviceEmulator.t) : M unit :=
  announce false emus ;;;
  client_loop_stop ;;;
  client_disconnect.

Definition main (fuel : nat) (args : Args) (w : World)
    : option (result unit * World) :=
  match startup args w with
  | (Exc e, w1) => Some (Exc e, w1)
  | (Val emus, w1) =>
      match main_loop fuel (arg_interval args) emus w1 with
      | None => None
      | Some (r, w2) =>
          Some (run_finally (match r with Val _ => Val tt | Exc e => Exc e end, w2)
                            (shutdown emus))
      end
  end.
End Main.

(** ** The text of [rfc3339_now]

    [clock_text] stands for the whole of
    [datetime.now(timezone.utc).isoformat().replace("+00:00", "Z")]; the
    definitions below are the formatting it hides, from the clock reading
    on. *)

(** An aware [datetime] with [tzinfo=timezone.utc]. *)
Module Datetime.
Record t := {
  year : nat; month : nat; day : nat;
  hour : nat; minute : nat; second : nat; microsecond : nat }.
End Datetime.

Fixpoint zeros (k : nat) : string :=
  match k with
  | O => ""
  | S k' => "0" ++ zeros k'
  end.

(** ["%0<width>d" % n] for a natural number *)
Definition zero_pad (width n : nat) : string :=
  let s := NilZero.string_of_uint (Nat.to_uint n) in
  zeros (width - String.length s) ++ s.

(** [dt.isoformat()] without the UTC offset: the fraction is printed only
    when the microseconds are not zero. *)
Definition isoformat_local (dt : Datetime.t) : string :=
  zero_pad 4 (Datetime.year dt) ++ "-" ++ zero_pad 2 (Datetime.month dt)
  ++ "-" ++ zero_pad 2 (Datetime.day dt)
  ++ "T" ++ zero_pad 2 (Datetime.hour dt) ++ ":" ++ zero_pad 2 (Datetime.minute dt)
  ++ ":" ++ zero_pad 2 (Datetime.second dt)
  ++ (if (Datetime.microsecond dt =? 0)%nat then ""
      else "." ++ zero_pad 6 (Datetime.microsecond dt)).

(** [dt.isoformat()], the offset of UTC being [+00:00] *)
Definition isoformat (dt : Datetime.t) : string := isoformat_local dt ++ "+00:00".

(** [s.replace(old, new)]: every occurrence of [old], found from the left
    and not overlapping an earlier one; with an empty [old], [new] goes
    before every character and at the end. *)
Fixpoint replace_from (old new : string) (skip : nat) (s : string) : string :=
  match s with
  | "" => ""
  | String c s' =>
      match skip with
      | S k => replace_from old new k s'
      | O =>
          if String.prefix old s
          then new ++ replace_from old new (String.length old - 1) s'
          else String c (replace_from old new 0 s')
      end
  end.

Fixpoint replace_empty (new s : string) : string :=
  match s with
  | "" => new
  | String c s' => new ++ String c (replace_empty new s')
  end.

Definition str_replace (old new s : string) : string :=
  match old with
  | "" => replace_empty new s
  | _ => replace_from old new 0 s
  end.

(** What [rfc3339_now] returns when the clock reads [dt]. *)
Definition rfc3339_text (dt : Datetime.t) : string :=
  str_replace "+00:00" "Z" (isoformat dt).

(** ** The lists of the command line

    A Python string is taken as the sequence of its code points, each below
    256; [int] is the one of CPython 3.11 with its default limit of 4300
    digits. *)
Module Cli.
Import Ascii.

(** [c.isspace()]: what [str.strip()] removes. *)
Definition is_space (c : ascii) : bool :=
  let n := nat_of_ascii c in
  ((9 <=? n) && (n <=? 13) || (28 <=? n) && (n <=? 32) || (n =? 133) || (n =? 160))%nat.

(** The blanks [int()] skips around a literal: the four separators
    [\x1c] to [\x1f] are not among them. *)
Definition is_int_space (c : ascii) : bool :=
  let n := nat_of_ascii c in
  ((9 <=? n) && (n <=? 13) || (n =? 32) || (n =? 133) || (n =? 160))%nat.

Fixpoint lstrip (blank : ascii -> bool) (s : string) : string :=
  match s with
  | "" => ""
  | String c s' => if blank c then lstrip blank s' else s
  end.

Fixpoint rstrip (blank : ascii -> bool) (s : string) : string :=
  match s with
  | "" => ""
  | String c s' =>
      match rstrip blank s' with
      | "" => if blank c then "" else String c ""
      | r => String c r
      end
  end.

(** [s.strip()] *)
Definition str_strip (s : string) : string := rstrip is_space (lstrip is_space s).

(** [s.split(sep)] for a separator of one character: never an empty list. *)
Fixpoint str_split (sep : ascii) (s : string) : list string :=
  match s with
  | "" => [""]
  | String c s' =>
      if (c =? sep)%char then "" :: str_split sep s'
      else match str_split sep s' with
           | x :: xs => String c x :: xs
           | [] => [String c ""]
           end
  end.

Definition is_digit (c : ascii) : bool :=
  let n := nat_of_ascii c in ((48 <=? n) && (n <=? 57))%nat.

(** The digits of a literal, its underscores dropped: a digit first and
    last, and no two underscores in a row. *)
Fixpoint digits_of (s : string) (after_digit : bool) : option string :=
  match s with
  | "" => if after_digit then Some "" else None
  | String c s' =>
      if is_digit c then option_map (String c) (digits_of s' true)
      else if (c =? "_")%char then
        if after_digit then digits_of s' false else None
      else None
  end.

Definition max_str_digits : nat := 4300.

(** The value of an unsigned literal; [None] stands for [ValueError]. *)
Definition unsigned_literal (s : string) : option Z :=
  match digits_of s false with
  | Some ds =>
      if (String.length ds <=? max_str_digits)%nat
      then option_map Z.of_uint (NilEmpty.uint_of_string ds)
      else None
  | None => None
  end.

(** [int(s)] for a string: blanks around, a sign, decimal digits. *)
Definition py_int (s : string) : option Z :=
  match rstrip is_int_space (lstrip is_int_space s) with
  | String c r =>
      if (c =? "-")%char then option_map Z.opp (unsigned_literal r)
      else if (c =? "+")%char then unsigned_literal r
      else unsigned_literal (String c r)
  | "" => None
  end.

Definition truthy (s : string) : bool := negb (s =? "")%string.

(** [[d.strip() for d in args.devices.split(",") if d.strip()]] *)
Definition devices (text : string) : list string :=
  map str_strip (List.filter (fun d => truthy (str_strip d)) (str_split "," text)).

(** [[int(x) for x in args.dp_channels.split(",") if x.strip()]]: the
    conversions run in order and the first that fails ends them. *)
Fixpoint ints (xs : list string) : option (list Z) :=
  match xs with
  | [] => Some []
  | x :: rest =>
      match py_int x with
      | Some n => option_map (cons n) (ints rest)
      | None => None
      end
  end.

Definition dp_channels (text : string) : option (list Z) :=
  ints (List.filter (fun x => truthy (str_strip x)) (str_split "," text)).
End Cli.

Local Close Scope string_scope.

(* ================================================================== *)
(** * Vocabulary of the properties

    Nothing below belongs to the program: these definitions name what the
    lemmas and theorems of the rest of the file speak about. *)

(** ** Values and walks *)

Definition within (x lo hi : float) : Prop :=
  (lo <=? x) = true /\ (x <=? hi) = true.

(** [y] is [x] brought between [lo] and [hi]: [y] lies between the bounds;
    it is [x] -- as a number where [x] meets a bound, bit for bit strictly
    inside -- when [x] lies between them; it is the bound [x] has passed
    otherwise, and the upper bound when [x] is not a number. *)
Definition clamped (x lo hi y : float) : Prop :=
  within y lo hi
  /\ (within x lo hi -> (y =? x)%float = true)
  /\ ((lo <? x)%float = true -> (x <? hi)%float = true -> y = x)
  /\ ((x <? lo)%float = true -> y = lo)
  /\ ((hi <? x)%float = true -> y = hi)
  /\ (is_nan x = true -> y = hi).

(** Sign of what [binary_round_aux] returns. *)
Definition sign_is (s : bool) (x : spec_float) : Prop :=
  match x with
  | S754_zero s' | S754_infinity s' | S754_finite s' _ _ => s' = s
  | S754_nan => True
  end.

Section Advances.
Import RandomWalk.

(** The value one [next] call computes from the two draws it takes. *)
Definition advanced (self : RandomWalk.t) (u z jitter : float) : float :=
  clamp (v self + (- step self + (step self - - step self) * u)
           + (0 + z * jitter) * 0.01 * (hi self - lo self))
        (lo self) (hi self).

(** [n] calls of [next], one per jitter scale: each returned value with the
    walk as that call left it. *)
Fixpoint advances (o : Oracle) (self : RandomWalk.t) (jitters : list float)
    : M (list (float * RandomWalk.t)) :=
  match jitters with
  | [] => ret []
  | j :: rest =>
      let* (x, self') := next o self j in
      let* more := advances o self' rest in
      ret ((x, self') :: more)
  end.

Definition bounds_kept (self : RandomWalk.t) (r : float * RandomWalk.t) : Prop :=
  v (snd r) = fst r /\ within (fst r) (lo self) (hi self)
  /\ lo (snd r) = lo self /\ hi (snd r) = hi self /\ step (snd r) = step self.
End Advances.

(** ** One sampling tick, draw by draw *)

Definition skip_rng (n : nat) (w : World) : World :=
  {| n_rng := n + n_rng w; n_clock := n_clock w; n_pub := n_pub w;
     n_poll := n_poll w; trace := trace w |}.

(** The walk after a [next()] call that takes the draws [k] and [k + 1]. *)
Definition stepped (o : Oracle) (walk : RandomWalk.t) (k : nat) : RandomWalk.t :=
  RandomWalk.set_v walk
    (advanced walk (rand_unit o k) (rand_normal o (S k))
       RandomWalk.default_jitter).

Section BmeReadings.
Variable o : Oracle.
Variable self : DeviceEmulator.t.
Variable w : World.
Import RandomWalk DeviceEmulator.

Definition bme_temp : RandomWalk.t := stepped o (temp self) (n_rng w).

Definition bme_rh : RandomWalk.t := stepped o (rh self) (2 + n_rng w).

Definition bme_press : RandomWalk.t := stepped o (press_pa self) (4 + n_rng w).

Definition bme_gas : RandomWalk.t := stepped o (gas self) (6 + n_rng w).

Definition bme_iaq : RandomWalk.t := stepped o (iaq self) (8 + n_rng w).

(** The IAQ excursion test and the reading it leaves *)
Definition iaq_fires : bool := rand_unit o (10 + n_rng w) <? 0.02.

Definition bme_iaq_val : float :=
  if iaq_fires
  then clamp (v bme_iaq + (20 + (80 - 20) * rand_unit o (11 + n_rng w))) 5.0 250.0
  else v bme_iaq.

(** The first draw of the VOC walk: one later when the excursion drew. *)
Definition voc_at : nat := if iaq_fires then 12 + n_rng w else 11 + n_rng w.

Definition bme_voc : RandomWalk.t := stepped o (voc_index self) voc_at.

Definition voc_noise : float := -3 + (3 - -3) * rand_unit o (2 + voc_at).

Definition bme_voc_val : float :=
  clamp (v bme_voc + voc_noise + 0.3 * (bme_iaq_val - 35.0)) 0.0 500.0.

Definition bme_co2 : RandomWalk.t := stepped o (co2_eq self) (3 + voc_at).

Definition co2_fires : bool := rand_unit o (5 + voc_at) <? 0.02.

Definition bme_co2_val : float :=
  if co2_fires
  then clamp (v bme_co2 + (100 + (300 - 100) * rand_unit o (6 + voc_at))) 400.0 2000.0
  else v bme_co2.

Definition bme_draws : nat :=
  (if iaq_fires then 1 else 0) + (if co2_fires then 1 else 0) + 17.
End BmeReadings.

Section SpsReadings.
Variable o : Oracle.
Variable self : DeviceEmulator.t.
Variable w : World.
Import RandomWalk DeviceEmulator.

(** The particulate event test and the bump it draws *)
Definition pm_fires : bool := rand_unit o (n_rng w) <? 0.015.

Definition pm_bump : float := 10 + (30 - 10) * rand_unit o (1 + n_rng w).

(** The PM2.5 and PM10 walks as the event block leaves them *)
Definition sps_pm25_start : RandomWalk.t :=
  if pm_fires
  then set_v (pm25 self) (clamp (v (pm25 self) + pm_bump) 0 200)
  else pm25 self.

Definition sps_pm10_start : RandomWalk.t :=
  if pm_fires
  then set_v (pm10 self) (clamp (v (pm10 self) + pm_bump * 1.2) 0 300)
  else pm10 self.

(** The first draw of the PM1 walk: one later when the event drew its bump. *)
Definition sps_at : nat := if pm_fires then 2 + n_rng w else 1 + n_rng w.

Definition sps_pm1 : RandomWalk.t := stepped o (pm1 self) sps_at.

Definition sps_pm25 : RandomWalk.t := stepped o sps_pm25_start (2 + sps_at).

Definition sps_pm4 : RandomWalk.t := stepped o (pm4 self) (4 + sps_at).

Definition sps_pm10 : RandomWalk.t := stepped o sps_pm10_start (6 + sps_at).

Definition sps_draws : nat := (if pm_fires then 1 else 0) + 9.
End SpsReadings.

(** ** Construction *)

Section Seeds.
Variable o : Oracle.

(** The baseline of a channel's walk, by the channel's identifier. *)
Definition dp_baseline (ch : Z) : float := if (ch =? 1)%Z then -80.0 else -95.0.

(** The walk [__init__] stores for channel [ch] when its seed is draw [k]. *)
Definition dp_seed (ch : Z) (k : nat) : RandomWalk.t :=
  RandomWalk.init (dp_baseline ch + (-8 + (8 - -8) * rand_unit o k)) 3.0 (-300) 20.

(** The dictionary the loop of [__init__] builds, draw [k] seeding the first
    channel of the list. *)
Fixpoint seeded (walks : gmap Z RandomWalk.t) (chs : list Z) (k : nat)
    : gmap Z RandomWalk.t :=
  match chs with
  | [] => walks
  | ch :: rest => seeded (<[ch := dp_seed ch k]> walks) rest (S k)
  end.
End Seeds.

Section FreshEmulator.
Import DeviceEmulator.

(** The emulator [__init__] builds in a calm environment for the one
    channel 1, as [fresh_calm] checks. *)
Definition emu0 : DeviceEmulator.t :=
  {| site := "home1"; room := "lab"; device := "pico2w-01";
     interval := 5; qos := 0%Z; dp_channels := [1%Z];
     temp := RandomWalk.init 20.5 0.05 10 35;
     rh := RandomWalk.init 45 0.2 15 90;
     press_pa := RandomWalk.init 101325 30 98000 104000;
     gas := RandomWalk.init 50000 500 1000 200000;
     iaq := RandomWalk.init 35.0 2.5 5.0 250.0;
     voc_index := RandomWalk.init 15.0 2.0 0.0 500.0;
     co2_eq := RandomWalk.init 600.0 15.0 400.0 2000.0;
     pm1 := RandomWalk.init 3 0.5 0 100;
     pm25 := RandomWalk.init 6 0.8 0 200;
     pm4 := RandomWalk.init 8 1.0 0 250;
     pm10 := RandomWalk.init 10 1.2 0 300;
     dp_walk := <[1%Z := RandomWalk.init (-80) 3.0 (-300) 20]> ∅ |}.
End FreshEmulator.

Local Close Scope float_scope.

(** ** Publish calls of a run *)

Inductive kind := KStatus (online : bool) | KBme | KSps | KDp.

Definition kind_of (body : payload) : kind :=
  match body with
  | PStatus p => KStatus (Status.online p)
  | PBme _ => KBme
  | PSps _ => KSps
  | PDp _ => KDp
  end.

(** A publish call by what the lifecycle tells apart: topic, kind of
    payload, and the retain flag. *)
Record call := { call_topic : string; call_kind : kind; call_retain : bool }.

Definition call_of (e : event) : option call :=
  match e with
  | EPublish topic body _ retain =>
      Some {| call_topic := topic; call_kind := kind_of body; call_retain := retain |}
  | _ => None
  end.

(** The publish calls of a trace, in order; each was attempted, answered or not. *)
Definition calls (tr : list event) : list call := omap call_of tr.

Definition ts_of (body : payload) : string :=
  match body with
  | PStatus p => Status.ts p
  | PBme p => Bme.ts p
  | PSps p => Sps.ts p
  | PDp p => Dp.ts p
  end.

(** An event is a non-retained publish whose payload carries [ts]. *)
Definition stamped (ts : string) (e : event) : Prop :=
  match e with
  | EPublish _ body _ retain => ts_of body = ts /\ retain = false
  | _ => False
  end.

(** Of the calls [cs] made in a row from publish number [n] on, those
    reached: all up to and with the first that raises. *)
Fixpoint attempted (o : Oracle) (n : nat) (cs : list call) : list call :=
  match cs with
  | [] => []
  | c :: rest =>
      c :: match publish_outcome o n with
           | Returned _ => attempted o (S n) rest
           | Raised => []
           end
  end.

(** None of the [len] publishes from number [n] on raises. *)
Fixpoint all_return (o : Oracle) (n len : nat) : bool :=
  match len with
  | O => true
  | S len' =>
      match publish_outcome o n with
      | Returned _ => all_return o (S n) len'
      | Raised => false
      end
  end.

(** ** What a computation publishes *)

Section PublishSpecs.
Variable o : Oracle.

(** [c] makes no publish and does not raise; its value satisfies [Q]. *)
Definition quiet {A} (c : M A) (Q : A -> Prop) : Prop :=
  forall w, exists a w',
    c w = (Val a, w') /\ calls (trace w') = calls (trace w)
    /\ n_pub w' = n_pub w /\ n_poll w' = n_poll w /\ Q a.

(** [c] makes the publish calls [cs] in order, as far as the first one that
    raises; it returns, with a value satisfying [Q], when none does. *)
Definition performs {A} (c : M A) (cs : list call) (Q : A -> Prop) : Prop :=
  forall w,
    calls (trace (c w).2) = calls (trace w) ++ attempted o (n_pub w) cs
    /\ n_pub (c w).2 = n_pub w + length (attempted o (n_pub w) cs)
    /\ n_poll (c w).2 = n_poll w
    /\ match (c w).1 with
       | Val a => all_return o (n_pub w) (length cs) = true /\ Q a
       | Exc e => all_return o (n_pub w) (length cs) = false /\ e = PublishError
       end.

(** [c] reads no clock and adds to the trace only events satisfying [P];
    the value it returns satisfies [Q]. *)
Definition emits {A} (P : event -> Prop) (c : M A) (Q : A -> Prop) : Prop :=
  forall w, exists new,
    trace (c w).2 = trace w ++ new /\ Forall P new /\ n_clock (c w).2 = n_clock w
    /\ match (c w).1 with Val a => Q a | Exc _ => True end.
End PublishSpecs.

(** ** The publish calls of a device and of a fleet *)

Definition topic_base (site room dev : string) : string :=
  ("iot/" ++ site ++ "/" ++ room ++ "/" ++ dev)%string.

Definition status_call (site room dev : string) (online : bool) : call :=
  {| call_topic := (topic_base site room dev ++ "/status")%string;
     call_kind := KStatus online; call_retain := true |}.

Definition bme_call (site room dev : string) : call :=
  {| call_topic := (topic_base site room dev ++ "/telemetry/bme688")%string;
     call_kind := KBme; call_retain := false |}.

Definition sps_call (site room dev : string) : call :=
  {| call_topic := (topic_base site room dev ++ "/telemetry/sps30")%string;
     call_kind := KSps; call_retain := false |}.

Definition dp_call (site room dev : string) (ch : Z) : call :=
  {| call_topic := (topic_base site room dev ++ "/telemetry/dp/" ++ str_of_int ch)%string;
     call_kind := KDp; call_retain := false |}.

(** One sampling pass of a device: environmental, particulate, then one
    differential-pressure publish per configured channel. *)
Definition telemetry_calls (site room dev : string) (chs : list Z) : list call :=
  bme_call site room dev :: sps_call site room dev :: map (dp_call site room dev) chs.

Definition same_device (a b : DeviceEmulator.t) : Prop :=
  DeviceEmulator.site a = DeviceEmulator.site b
  /\ DeviceEmulator.room a = DeviceEmulator.room b
  /\ DeviceEmulator.device a = DeviceEmulator.device b
  /\ DeviceEmulator.qos a = DeviceEmulator.qos b
  /\ DeviceEmulator.dp_channels a = DeviceEmulator.dp_channels b.

(** Every configured channel has its walk. *)
Definition walks_ready (e : DeviceEmulator.t) : Prop :=
  forall ch, ch ∈ DeviceEmulator.dp_channels e ->
             is_Some (DeviceEmulator.dp_walk e !! ch).


(** The status calls of a fleet, device by device. *)
Definition status_calls (args : Args) (online : bool) : list call :=
  map (fun dev => status_call (arg_site args) (arg_room args) dev online)
      (arg_devices args).

(** The telemetry calls of one round: per device in order, environmental,
    particulate and one differential-pressure call per channel. *)
Definition round_calls (args : Args) : list call :=
  flat_map (fun dev => telemetry_calls (arg_site args) (arg_room args) dev
                         (arg_dp_channels args))
           (arg_devices args).

(** The emulators are those of the configured devices, in order, each with
    its walks. *)
Definition fleet (args : Args) (emus : list DeviceEmulator.t) : Prop :=
  Forall2 (fun dev e =>
             DeviceEmulator.site e = arg_site args
             /\ DeviceEmulator.room e = arg_room args
             /\ DeviceEmulator.device e = dev
             /\ DeviceEmulator.qos e = arg_qos args
             /\ DeviceEmulator.dp_channels e = arg_dp_channels args
             /\ walks_ready e)
          (arg_devices args) emus.



(** ** Concrete environments *)

(** The given unit and normal draws, publish outcomes and stop flags; clock
    readings [t0, t1, ...] and integer draws all zero. *)
Definition oracle_of (units normals : nat -> float) (secs : nat -> float)
    (outcomes : nat -> outcome) (flags : nat -> bool) : Oracle :=
  {| rand_unit := units; rand_normal := normals; rand_bits := fun _ => 0%Z;
     clock_text := fun k => ("t" ++ str_of_int (Z.of_nat k))%string;
     clock_secs := secs;
     publish_outcome := outcomes; stop_flag := flags;
     sleep_refused := fun _ => false |}.

(** Every uniform draw in the middle of its range, no Gaussian noise, a broker
    that accepts everything, and a stop flag raised before the first round. *)
Definition calm : Oracle :=
  oracle_of (fun _ => 0.5%float) (fun _ => 0%float) (fun _ => 0%float)
            (fun _ => Returned 0) (fun _ => true).

(** [calm], but the Gaussian deviate of draw [k] is [z]. *)
Definition calm_but_normal (k : nat) (z : float) : Oracle :=
  oracle_of (fun _ => 0.5%float) (fun i => if (i =? k)%nat then z else 0%float)
            (fun _ => 0%float) (fun _ => Returned 0) (fun _ => true).

(** [calm], but the unit draw [k] is [u]. *)
Definition calm_but_unit (k : nat) (u : float) : Oracle :=
  oracle_of (fun i => if (i =? k)%nat then u else 0.5%float) (fun _ => 0%float)
            (fun _ => 0%float) (fun _ => Returned 0) (fun _ => true).

(** [calm] with the stop flag first seen set at test [n], publish number [k]
    raising when [fails] says so, and the clock reading [t0] first and [t1]
    from then on. *)
Definition scripted (n : nat) (fails : nat -> bool) (t0 t1 : float) : Oracle :=
  oracle_of (fun _ => 0.5%float) (fun _ => 0%float)
            (fun k => match k with O => t0 | _ => t1 end)
            (fun k => if fails k then Raised else Returned 0)
            (fun k => (n <=? k)%nat).

Definition no_failure (k : nat) : bool := false.

(** Two devices, each with the one channel 1. *)
Definition two_devices : Args :=
  {| arg_site := "home1"; arg_room := "lab"; arg_devices := ["a"; "b"]%string;
     arg_dp_channels := [1%Z]; arg_interval := 5%float; arg_qos := 0%Z |}.


(** The emulator [__init__] builds under [o] from a fresh world, and the
    world it leaves. *)
Definition fresh (o : Oracle) (chs : list Z) : result DeviceEmulator.t * World :=
  DeviceEmulator.init o "home1" "lab" "pico2w-01" 5%float 0%Z chs world0.

(** The topic and the timestamp of each publish of a trace. *)
Definition stamps (tr : list event) : list (string * string) :=
  omap (fun e => match e with
                 | EPublish topic body _ _ => Some (topic, ts_of body)
                 | _ => None
                 end) tr.

(** The sleeps of a trace. *)
Definition sleeps (tr : list event) : list float :=
  omap (fun e => match e with ESleep s => Some s | _ => None end) tr.

(** ** What a run puts in its trace *)

(** [c] adds to the trace only events satisfying [P]; the value it returns
    satisfies [Q]. *)
Definition adds {A} (P : event -> Prop) (c : M A) (Q : A -> Prop) : Prop :=
  forall w, exists new,
    trace (c w).2 = trace w ++ new /\ Forall P new
    /\ match (c w).1 with Val a => Q a | Exc _ => True end.

(** The calls a configuration allows: the two status calls and the
    telemetry calls of its devices. *)
Definition allowed_calls (args : Args) : list call :=
  status_calls args true ++ status_calls args false ++ round_calls args.

(** Whether a payload is a status snapshot. *)
Definition is_status (body : payload) : bool :=
  match body with PStatus _ => true | _ => false end.

(** The firmware tag and the signal strength of a status snapshot. *)
Definition status_ok (body : payload) : Prop :=
  match body with
  | PStatus p => Status.fw p = "emu-1.1.0"%string
                 /\ (-70 <= Status.rssi_dbm p <= -45)%Z
  | _ => True
  end.

(** What holds of every event of a run but the closing of the connection. *)
Definition running_ok (o : Oracle) (args : Args) (e : event) : Prop :=
  match e with
  | EPublish topic body qos retain =>
      qos = arg_qos args
      /\ {| call_topic := topic; call_kind := kind_of body; call_retain := retain |}
           ∈ allowed_calls args
      /\ retain = is_status body
      /\ status_ok body
      /\ exists k, ts_of body = clock_text o k
  | ESleep secs => (0 <? secs)%float = true
  | ELoopStop | EDisconnect => False
  end.

(** The emulator is the one of a configured device. *)
Definition member (args : Args) (e : DeviceEmulator.t) : Prop :=
  DeviceEmulator.site e = arg_site args
  /\ DeviceEmulator.room e = arg_room args
  /\ DeviceEmulator.device e ∈ arg_devices args
  /\ DeviceEmulator.qos e = arg_qos args
  /\ DeviceEmulator.dp_channels e = arg_dp_channels args.

(** ** Walks over ticks *)

(** The bounds of a walk are ordered; its value lies between them. *)
Definition walk_ok (x : RandomWalk.t) : Prop :=
  (RandomWalk.lo x <=? RandomWalk.hi x)%float = true.

Definition in_range (x : RandomWalk.t) : Prop :=
  within (RandomWalk.v x) (RandomWalk.lo x) (RandomWalk.hi x).

Definition same_params (a b : RandomWalk.t) : Prop :=
  RandomWalk.step b = RandomWalk.step a
  /\ RandomWalk.lo b = RandomWalk.lo a
  /\ RandomWalk.hi b = RandomWalk.hi a.

(** [b] is [a] after it was advanced: same step and bounds, and a value in
    range when the bounds are ordered. *)
Definition moved (a b : RandomWalk.t) : Prop :=
  same_params a b /\ (walk_ok a -> in_range b).

(** The eleven walks every emulator owns, with the step and bounds
    [__init__] gives them. *)
Definition fixed_walks
    : list ((DeviceEmulator.t -> RandomWalk.t) * (float * float * float)) :=
  [(DeviceEmulator.temp, (0.05, 10, 35)); (DeviceEmulator.rh, (0.2, 15, 90));
   (DeviceEmulator.press_pa, (30, 98000, 104000));
   (DeviceEmulator.gas, (500, 1000, 200000));
   (DeviceEmulator.iaq, (2.5, 5, 250)); (DeviceEmulator.voc_index, (2, 0, 500));
   (DeviceEmulator.co2_eq, (15, 400, 2000));
   (DeviceEmulator.pm1, (0.5, 0, 100)); (DeviceEmulator.pm25, (0.8, 0, 200));
   (DeviceEmulator.pm4, (1, 0, 250)); (DeviceEmulator.pm10, (1.2, 0, 300))]%float.

Definition has_params (x : RandomWalk.t) (p : float * float * float) : Prop :=
  RandomWalk.step x = p.1.1 /\ RandomWalk.lo x = p.1.2 /\ RandomWalk.hi x = p.2.

(** Every walk of the emulator has the step and bounds of its quantity. *)
Definition designed (e : DeviceEmulator.t) : Prop :=
  Forall (fun fp => has_params (fp.1 e) fp.2) fixed_walks
  /\ forall ch walk, DeviceEmulator.dp_walk e !! ch = Some walk ->
                     has_params walk (3, -300, 20)%float.

(** Every walk of the emulator stores a value within the bounds of its
    quantity. *)
Definition in_ranges (e : DeviceEmulator.t) : Prop :=
  Forall (fun fp => within (RandomWalk.v (fp.1 e)) fp.2.1.2 fp.2.2) fixed_walks
  /\ forall ch, ch ∈ DeviceEmulator.dp_channels e ->
                exists walk, DeviceEmulator.dp_walk e !! ch = Some walk
                             /\ within (RandomWalk.v walk) (-300) 20%float.

(** The dictionary [m] is [m0] once the walks of the channels [chs] were
    advanced, each as often as it is listed; no key comes or goes. *)
Definition dp_advanced (chs : list Z) (m0 m : gmap Z RandomWalk.t) : Prop :=
  forall ch,
    match m0 !! ch, m !! ch with
    | Some a, Some b => moved a b \/ ((ch ∉ chs) /\ b = a)
    | None, None => ch ∉ chs
    | _, _ => False
    end.

(** [y] is what [round(x, ndigits)] gives for some [x] from [lo] to [hi]. *)
Definition rounds_of (y : float) (ndigits : nat) (lo hi : float) : Prop :=
  exists x, y = py_round x ndigits /\ within x lo hi.

(** [emu0] told of a channel 2 for which it was given no walk. *)
Definition emu0_plus : DeviceEmulator.t :=
  {| DeviceEmulator.site := DeviceEmulator.site emu0;
     DeviceEmulator.room := DeviceEmulator.room emu0;
     DeviceEmulator.device := DeviceEmulator.device emu0;
     DeviceEmulator.interval := DeviceEmulator.interval emu0;
     DeviceEmulator.qos := DeviceEmulator.qos emu0;
     DeviceEmulator.dp_channels := [1; 2]%Z;
     DeviceEmulator.temp := DeviceEmulator.temp emu0;
     DeviceEmulator.rh := DeviceEmulator.rh emu0;
     DeviceEmulator.press_pa := DeviceEmulator.press_pa emu0;
     DeviceEmulator.gas := DeviceEmulator.gas emu0;
     DeviceEmulator.iaq := DeviceEmulator.iaq emu0;
     DeviceEmulator.voc_index := DeviceEmulator.voc_index emu0;
     DeviceEmulator.co2_eq := DeviceEmulator.co2_eq emu0;
     DeviceEmulator.pm1 := DeviceEmulator.pm1 emu0;
     DeviceEmulator.pm25 := DeviceEmulator.pm25 emu0;
     DeviceEmulator.pm4 := DeviceEmulator.pm4 emu0;
     DeviceEmulator.pm10 := DeviceEmulator.pm10 emu0;
     DeviceEmulator.dp_walk := DeviceEmulator.dp_walk emu0 |}.

(** ** Topics *)

(** What a topic of a device is for: its status, one of the two sensor
    payloads, or the differential pressure of a channel. *)
Inductive topic_kind := TStatus | TBme | TSps | TDp (ch : Z).

Definition topic_of (e : DeviceEmulator.t) (k : topic_kind) : string :=
  match k with
  | TStatus => DeviceEmulator.topic_status e
  | TBme => DeviceEmulator.topic_bme e
  | TSps => DeviceEmulator.topic_sps e
  | TDp ch => DeviceEmulator.topic_dp e ch
  end.

(** The characters of a topic after its last slash, and those between the
    device name and that slash. *)
Definition topic_tail (k : topic_kind) : list Ascii.ascii :=
  list_ascii_of_string
    match k with
    | TStatus => "status"
    | TBme => "bme688"
    | TSps => "sps30"
    | TDp ch => str_of_int ch
    end.

Definition topic_stem (k : topic_kind) : list Ascii.ascii :=
  list_ascii_of_string
    match k with
    | TStatus => ""
    | TBme | TSps => "/telemetry"
    | TDp _ => "/telemetry/dp"
    end.

(** The characters a printed integer is made of. *)
Definition numeric (c : Ascii.ascii) : Prop :=
  c ∈ list_ascii_of_string "-0123456789".

(** ** Clock readings *)

(** The invariants of a [datetime]: the fields within their calendar
    ranges (the day is not checked against the month). *)
Definition datetime_ok (dt : Datetime.t) : Prop :=
  1 <= Datetime.year dt < 10 ^ 4 /\ 1 <= Datetime.month dt <= 12
  /\ 1 <= Datetime.day dt <= 31 /\ Datetime.hour dt < 24
  /\ Datetime.minute dt < 60 /\ Datetime.second dt < 60
  /\ Datetime.microsecond dt < 10 ^ 6.

(** The clock [k] seconds after midnight of 2 January 2024, within the
    first minute, and [calm] with a clock that prints these readings and a
    stop flag raised after one round. *)
Definition reading_at (k : nat) : Datetime.t :=
  {| Datetime.year := 2024; Datetime.month := 1; Datetime.day := 2;
     Datetime.hour := 0; Datetime.minute := 0; Datetime.second := k mod 60;
     Datetime.microsecond := 0 |}.

Definition dated : Oracle :=
  {| rand_unit := fun _ => 0.5%float; rand_normal := fun _ => 0%float;
     rand_bits := fun _ => 0%Z;
     clock_text := fun k => rfc3339_text (reading_at k);
     clock_secs := fun _ => 0%float;
     publish_outcome := fun _ => Returned 0;
     stop_flag := fun k => (1 <=? k)%nat;
     sleep_refused := fun _ => false |}.

(** ** Names on the command line *)

(** No comma in the string. *)
Definition comma_free (s : string) : Prop :=
  Ascii.ascii_of_nat 44 ∉ list_ascii_of_string s.

(** A name as the device list keeps it: not empty, no blank at either
    end, no comma. *)
Definition clean_name (d : string) : Prop :=
  d <> ""%string /\ Cli.str_strip d = d /\ comma_free d.

(** ** Exceptions of a run *)





Local Open Scope float_scope.

(* ================================================================== *)
(** * Order facts about binary64 comparisons *)

Lemma SFcompare_refl (s : spec_float) :
  s <> S754_nan -> SFcompare s s = Some Eq.
Proof.
  destruct s as [b|b| |b m e]; try (destruct b; reflexivity); try congruence.
  intros _. simpl. rewrite Z.compare_refl, Pos.compare_cont_refl.
  destruct b; reflexivity.
Qed.

Lemma ltb_leb (x y : float) : (x <? y) = true -> (x <=? y) = true.
Proof.
  rewrite ltb_spec, leb_spec. unfold SFltb, SFleb.
  destruct (SFcompare (Prim2SF x) (Prim2SF y)) as [[]|]; congruence.
Qed.

Lemma leb_not_nan_l (x y : float) : (x <=? y) = true -> Prim2SF x <> S754_nan.
Proof.
  rewrite leb_spec. unfold SFleb. intros H E. rewrite E in H. discriminate.
Qed.

Lemma leb_not_nan_r (x y : float) : (x <=? y) = true -> Prim2SF y <> S754_nan.
Proof.
  rewrite leb_spec. unfold SFleb. intros H E. rewrite E in H.
  destruct (Prim2SF x); discriminate.
Qed.

Lemma leb_refl (x : float) : Prim2SF x <> S754_nan -> (x <=? x) = true.
Proof.
  intros H. rewrite leb_spec. unfold SFleb. now rewrite SFcompare_refl.
Qed.

(** [clamp] lands between its bounds whatever it is given, NaN included. *)
Lemma clamp_within (x lo hi : float) :
  (lo <=? hi) = true -> within (clamp x lo hi) lo hi.
Proof.
  intros Hb. unfold within, clamp, py_max, py_min, gtb.
  pose proof (leb_refl _ (leb_not_nan_l _ _ Hb)) as Hlo.
  pose proof (leb_refl _ (leb_not_nan_r _ _ Hb)) as Hhi.
  destruct (x <? hi) eqn:Hx.
  - destruct (lo <? x) eqn:Hl; split; auto using ltb_leb.
  - destruct (lo <? hi) eqn:Hl; split; auto using ltb_leb.
Qed.

Lemma ltb_irrefl (x : float) : (x <? x) = false.
Proof.
  rewrite ltb_spec. unfold SFltb.
  destruct (Prim2SF x) as [b|b| |b m e] eqn:E; try reflexivity.
  - now destruct b.
  - rewrite SFcompare_refl; [reflexivity|discriminate].
Qed.

(** Equal as numbers: the same value, or two zeros. *)
Lemma SFcompare_Eq_inv (a b : spec_float) :
  SFcompare a b = Some Eq ->
  a = b \/ exists s s', a = S754_zero s /\ b = S754_zero s'.
Proof.
  destruct a as [s|s| |s m e], b as [s'|s'| |s' m' e']; simpl;
    try discriminate; try (destruct s; discriminate); try (destruct s'; discriminate).
  - intros _. right. eauto.
  - destruct s, s'; try discriminate; auto.
  - destruct s, s'; try discriminate;
      destruct (Z.compare_spec e e') as [->| |]; try discriminate;
      intros H; left; f_equal.
    + injection H as H. destruct (Pos.compare_cont Eq m m') eqn:Ec; try discriminate.
      now apply Pos.compare_eq in Ec.
    + apply Pos.compare_eq. now injection H.
Qed.

Lemma SFcompare_zero_r (c : spec_float) (s s' : bool) :
  SFcompare c (S754_zero s) = SFcompare c (S754_zero s').
Proof. now destruct c. Qed.

Lemma SFcompare_zero_l (c : spec_float) (s s' : bool) :
  SFcompare (S754_zero s) c = SFcompare (S754_zero s') c.
Proof. now destruct c. Qed.

Lemma SFcompare_Eq_sym (a b : spec_float) :
  SFcompare a b = Some Eq -> SFcompare b a = Some Eq.
Proof.
  intros E. destruct (SFcompare_Eq_inv a b E) as [->|(s & s' & -> & ->)];
    [|reflexivity].
  apply SFcompare_refl. intros ->. discriminate E.
Qed.

Lemma eqb_sym (x y : float) : (x =? y) = (y =? x).
Proof.
  rewrite !FloatAxioms.eqb_spec. unfold SFeqb.
  destruct (SFcompare (Prim2SF x) (Prim2SF y)) as [[]|] eqn:E1;
    destruct (SFcompare (Prim2SF y) (Prim2SF x)) as [[]|] eqn:E2;
    try reflexivity;
    first [apply SFcompare_Eq_sym in E1 | apply SFcompare_Eq_sym in E2]; congruence.
Qed.

Lemma leb_not_ltb_eqb (x y : float) :
  (x <=? y) = true -> (x <? y) = false -> (x =? y) = true.
Proof.
  rewrite leb_spec, ltb_spec, FloatAxioms.eqb_spec. unfold SFleb, SFltb, SFeqb.
  destruct (SFcompare (Prim2SF x) (Prim2SF y)) as [[]|]; congruence.
Qed.

Lemma eqb_within (x y lo hi : float) :
  (x =? y) = true -> within x lo hi -> within y lo hi.
Proof.
  rewrite FloatAxioms.eqb_spec. unfold within, SFeqb. rewrite !leb_spec.
  destruct (SFcompare (Prim2SF x) (Prim2SF y)) as [[]|] eqn:E; try discriminate.
  intros _. apply SFcompare_Eq_inv in E as [->|(s & s' & -> & ->)]; [tauto|].
  unfold SFleb. now rewrite (SFcompare_zero_r _ s s'), (SFcompare_zero_l _ s s').
Qed.

Lemma SFcompare_Lt_trans (a b c : spec_float) :
  SFcompare a b = Some Lt -> SFcompare b c = Some Lt -> SFcompare a c = Some Lt.
Proof.
  destruct a as [s1|s1| |s1 m1 e1], b as [s2|s2| |s2 m2 e2], c as [s3|s3| |s3 m3 e3];
    simpl; try discriminate; try reflexivity;
    try (destruct s1; try discriminate; try reflexivity);
    try (destruct s2; try discriminate; try reflexivity);
    try (destruct s3; try discriminate; try reflexivity).
  all: change (Pos.compare_cont Eq) with Pos.compare.
  all: destruct (Z.compare_spec e1 e2) as [->|H12|H12]; try discriminate;
       destruct (Z.compare_spec e2 e3) as [->|H23|H23]; try discriminate;
       intros Ha Hb.
  all: try rewrite Z.compare_refl.
  all: try (assert (E : (e1 ?= e3)%Z = Lt) by (apply Z.compare_lt_iff; lia);
            rewrite E; reflexivity).
  all: try (assert (E : (e1 ?= e3)%Z = Gt) by (apply Z.compare_gt_iff; lia);
            rewrite E; reflexivity).
  all: try (assert (E : (e2 ?= e3)%Z = Lt) by (apply Z.compare_lt_iff; lia);
            rewrite E; reflexivity).
  all: try (assert (E : (e2 ?= e3)%Z = Gt) by (apply Z.compare_gt_iff; lia);
            rewrite E; reflexivity).
  all: try (assert (E : (e1 ?= e2)%Z = Lt) by (apply Z.compare_lt_iff; lia);
            rewrite E; reflexivity).
  all: try (assert (E : (e1 ?= e2)%Z = Gt) by (apply Z.compare_gt_iff; lia);
            rewrite E; reflexivity).
  all: try reflexivity.
  - destruct (Pos.compare_spec m1 m2); try discriminate.
    destruct (Pos.compare_spec m2 m3); try discriminate.
    assert (E : (m1 ?= m3)%positive = Gt) by (apply Pos.compare_gt_iff; lia).
    now rewrite E.
  - destruct (Pos.compare_spec m1 m2); try discriminate.
    destruct (Pos.compare_spec m2 m3); try discriminate.
    assert (E : (m1 ?= m3)%positive = Lt) by (apply Pos.compare_lt_iff; lia).
    now rewrite E.
Qed.

Lemma ltb_trans (x y z : float) :
  (x <? y) = true -> (y <? z) = true -> (x <? z) = true.
Proof.
  rewrite !ltb_spec. unfold SFltb.
  destruct (SFcompare (Prim2SF x) (Prim2SF y)) as [[]|] eqn:E1; try discriminate.
  destruct (SFcompare (Prim2SF y) (Prim2SF z)) as [[]|] eqn:E2; try discriminate.
  now rewrite (SFcompare_Lt_trans _ _ _ E1 E2).
Qed.

Lemma ltb_asym (x y : float) : (x <? y) = true -> (y <? x) = false.
Proof.
  intros H. destruct (y <? x) eqn:E; [|reflexivity].
  pose proof (ltb_trans _ _ _ H E) as F. now rewrite ltb_irrefl in F.
Qed.

Lemma nan_ltb (x y : float) : is_nan x = true -> (x <? y) = false.
Proof.
  unfold is_nan. rewrite FloatAxioms.eqb_spec, ltb_spec. unfold SFeqb, SFltb.
  destruct (Prim2SF x) as [s|s| |s m e] eqn:E; try reflexivity;
    rewrite SFcompare_refl; discriminate.
Qed.

(** What [clamp] returns, bounds in strict order: a value between them that
    is the argument wherever the argument lies between them, and the nearer
    bound elsewhere (the upper one for a NaN). *)
Lemma clamp_clamped (x lo hi : float) :
  (lo <? hi) = true -> clamped x lo hi (clamp x lo hi).
Proof.
  intros Hb. split; [exact (clamp_within x lo hi (ltb_leb _ _ Hb))|].
  unfold clamp, py_max, py_min, gtb.
  split; [|split; [|split; [|split]]].
  - intros [Hl Hh]. destruct (x <? hi) eqn:Hx.
    + destruct (lo <? x) eqn:Hlx; [|now apply leb_not_ltb_eqb].
      rewrite FloatAxioms.eqb_spec. unfold SFeqb.
      rewrite SFcompare_refl; [reflexivity|]. exact (leb_not_nan_l _ _ Hh).
    + rewrite Hb, eqb_sym. now apply leb_not_ltb_eqb.
  - intros Hl Hh. now rewrite Hh, Hl.
  - intros Hx. now rewrite (ltb_trans _ _ _ Hx Hb), (ltb_asym _ _ Hx).
  - intros Hx. now rewrite (ltb_asym _ _ Hx), Hb.
  - intros Hn. now rewrite (nan_ltb _ _ Hn), Hb.
Qed.

(** ** The sign of a difference

    [x <= y] leaves [x - y] not positive: the rounding of a difference keeps
    the sign of the exact one, and binary64 values are ordered as their
    aligned mantissas are. *)
Section DifferenceSign.
Local Open Scope Z_scope.

Lemma digits2_size (m : positive) : digits2_pos m = Pos.size m.
Proof. induction m; simpl; congruence. Qed.

Lemma iter_xO (m d : positive) : Zpos (Pos.iter xO m d) = Zpos m * 2 ^ Zpos d.
Proof.
  revert m. induction d using Pos.peano_ind; intros m.
  - simpl. lia.
  - rewrite Pos.iter_succ. rewrite Pos2Z.inj_xO, IHd, Pos2Z.inj_succ, Z.pow_succ_r by lia. lia.
Qed.

Lemma shl_align_fst (m : positive) (e e' : Z) :
  e' <= e -> Zpos (fst (shl_align m e e')) = Zpos m * 2 ^ (e - e').
Proof.
  intros H. unfold shl_align. destruct (e' - e) as [|p|p] eqn:E.
  - replace (e - e') with 0 by lia. simpl. lia.
  - lia.
  - simpl. rewrite iter_xO. replace (e - e') with (Zpos p) by lia. reflexivity.
Qed.

Lemma binary_round_aux_sign (s : bool) (m e : Z) (l : location) :
  sign_is s (binary_round_aux prec emax s m e l).
Proof.
  unfold binary_round_aux.
  destruct (shr_fexp prec emax m e l) as [mrs e1].
  destruct (shr_fexp prec emax _ e1 loc_Exact) as [mrs' e2].
  destruct (shr_m mrs'); simpl; auto.
  destruct (e2 <=? _); simpl; auto.
Qed.

Lemma binary_normalize_nonpos (m e : Z) :
  m <= 0 -> SFltb (S754_zero false) (binary_normalize prec emax m e false) = false.
Proof.
  intros H. destruct m as [|p|p]; [reflexivity|lia|].
  unfold binary_normalize, binary_round.
  destruct (shl_align p e _) as [mz ez].
  pose proof (binary_round_aux_sign true (Zpos mz) ez loc_Exact) as Hs.
  destruct (binary_round_aux prec emax true (Zpos mz) ez loc_Exact); simpl in *; subst; reflexivity.
Qed.

Lemma canonical_lt (mx my : positive) (ex ey : Z) :
  bounded prec emax mx ex = true -> bounded prec emax my ey = true ->
  ex < ey -> Zpos mx < Zpos my * 2 ^ (ey - ex).
Proof.
  unfold bounded, canonical_mantissa, fexp, emin. rewrite !andb_true_iff, !Z.eqb_eq.
  intros [Hx _] [Hy _] Hlt. rewrite digits2_size in Hx, Hy.
  change IntDef.Z.max with Z.max in Hx, Hy.
  pose proof (Pos.size_gt mx) as Gx. pose proof (Pos.size_le my) as Ly.
  assert (Hdx : Zpos (Pos.size mx) <= prec) by (unfold prec, emax in *; lia).
  assert (Hdy : Zpos (Pos.size my) = prec) by (unfold prec, emax in *; lia).
  assert (Zpos mx < 2 ^ prec).
  { apply Z.lt_le_trans with (2 ^ Zpos (Pos.size mx)).
    - rewrite <- Pos2Z.inj_pow. apply Pos2Z.pos_lt_pos. exact Gx.
    - apply Z.pow_le_mono_r; lia. }
  assert (2 ^ prec <= 2 * Zpos my).
  { rewrite <- Hdy. apply Pos2Z.pos_le_pos in Ly. rewrite Pos2Z.inj_pow in Ly. lia. }
  assert (2 ^ 1 <= 2 ^ (ey - ex)) by (apply Z.pow_le_mono_r; lia).
  nia.
Qed.

Lemma compare_cont_Eq_le (m1 m2 : positive) :
  Pos.compare_cont Eq m1 m2 <> Gt -> Zpos m1 <= Zpos m2.
Proof. change (Pos.compare_cont Eq m1 m2) with (Pos.compare m1 m2). intros H. apply Pos2Z.pos_le_pos. exact H. Qed.

Lemma compare_cont_Eq_ge (m1 m2 : positive) :
  Pos.compare_cont Eq m1 m2 <> Lt -> Zpos m2 <= Zpos m1.
Proof.
  change (Pos.compare_cont Eq m1 m2) with (Pos.compare m1 m2). intros H.
  apply Pos2Z.pos_le_pos. unfold Pos.le. rewrite Pos.compare_antisym.
  destruct (m1 ?= m2)%positive; simpl; congruence.
Qed.

Lemma aligned_diff_nonpos (sx sy : bool) (mx my : positive) (ex ey : Z) :
  bounded prec emax mx ex = true -> bounded prec emax my ey = true ->
  SFleb (S754_finite sx mx ex) (S754_finite sy my ey) = true ->
  cond_Zopp sx (Zpos (fst (shl_align mx ex (Z.min ex ey))))
  - cond_Zopp sy (Zpos (fst (shl_align my ey (Z.min ex ey)))) <= 0.
Proof.
  intros Bx By. unfold SFleb, SFcompare.
  rewrite !shl_align_fst by lia.
  destruct sx, sy; cbn [cond_Zopp]; try discriminate.
  - destruct (Z.compare_spec ex ey) as [->|Hlt|Hgt]; try discriminate.
    + intros H. rewrite Z.min_id, Z.sub_diag, Z.pow_0_r.
      assert (Zpos my <= Zpos mx).
      { apply compare_cont_Eq_ge. destruct (Pos.compare_cont Eq mx my); discriminate. }
      lia.
    + intros _. pose proof (canonical_lt my mx ey ex By Bx ltac:(lia)).
      rewrite Z.min_r by lia. rewrite Z.sub_diag, Z.pow_0_r. lia.
  - intros _. pose proof (Z.pow_nonneg 2 (ex - Z.min ex ey) ltac:(lia)).
    pose proof (Z.pow_nonneg 2 (ey - Z.min ex ey) ltac:(lia)). nia.
  - destruct (Z.compare_spec ex ey) as [->|Hlt|Hgt]; try discriminate.
    + intros H. rewrite Z.min_id, Z.sub_diag, Z.pow_0_r.
      assert (Zpos mx <= Zpos my).
      { apply compare_cont_Eq_le. destruct (Pos.compare_cont Eq mx my); discriminate. }
      lia.
    + intros _. pose proof (canonical_lt mx my ex ey Bx By ltac:(lia)).
      rewrite Z.min_l by lia. rewrite Z.sub_diag, Z.pow_0_r. lia.
Qed.

Lemma SFsub_not_pos (x y : spec_float) :
  valid_binary x = true -> valid_binary y = true ->
  SFleb x y = true ->
  SFltb (S754_zero false) (SFsub prec emax x y) = false.
Proof.
  destruct x as [sx|sx| |sx mx ex], y as [sy|sy| |sy my ey]; intros Bx By H;
    try (apply binary_normalize_nonpos; now apply aligned_diff_nonpos);
    repeat match goal with s : bool |- _ => destruct s end;
    try reflexivity; discriminate H.
Qed.

End DifferenceSign.

Lemma leb_sub_not_pos (x y : float) : (x <=? y) = true -> (0 <? x - y) = false.
Proof.
  rewrite leb_spec, ltb_spec, sub_spec. change (Prim2SF 0) with (S754_zero false).
  apply SFsub_not_pos; apply Prim2SF_valid.
Qed.

(* ================================================================== *)
(** * RandomWalk *)

Section RandomWalkFacts.
Import RandomWalk.

Lemma next_eq (o : Oracle) (self : RandomWalk.t) (jitter : float) (w : World) :
  next o self jitter w =
    (let x := advanced self (rand_unit o (n_rng w)) (rand_normal o (S (n_rng w))) jitter in
     (Val (x, set_v self x), tick_rng (tick_rng w))).
Proof. reflexivity. Qed.

Lemma advances_spec (o : Oracle) (jitters : list float) :
  forall (self : RandomWalk.t) (w : World),
    (lo self <=? hi self) = true ->
    exists rs w',
      advances o self jitters w = (Val rs, w')
      /\ length rs = length jitters
      /\ Forall (bounds_kept self) rs.
Proof.
  induction jitters as [|j rest IH]; intros self w Hb.
  - exists [], w. repeat split. constructor.
  - simpl. unfold bind at 1. rewrite next_eq. cbv zeta.
    set (x := advanced self _ _ j).
    destruct (IH (set_v self x) (tick_rng (tick_rng w)) Hb) as (rs & w' & E & L & F).
    unfold bind at 1. rewrite E.
    exists ((x, set_v self x) :: rs), w'. split; [reflexivity|].
    split; [simpl; now rewrite L|].
    constructor.
    + unfold bounds_kept; simpl. repeat split; try apply clamp_within; auto.
    + eapply Forall_impl; [exact F|]. intros r. unfold bounds_kept; simpl. tauto.
Qed.
End RandomWalkFacts.

(* ================================================================== *)
(** * One sampling tick, draw by draw *)

Lemma next_stepped (o : Oracle) (walk : RandomWalk.t) (w : World) :
  RandomWalk.next o walk RandomWalk.default_jitter w =
    (Val (RandomWalk.v (stepped o walk (n_rng w)), stepped o walk (n_rng w)),
     skip_rng 2 w).
Proof. reflexivity. Qed.

(** Runs the monadic plumbing of a tick whose walks are advanced by
    [next_stepped]. *)
Ltac run_tick :=
  repeat first
    [ rewrite next_stepped
    | progress cbv beta iota zeta delta [bind ret random uniform]
    | progress cbn [n_rng skip_rng tick_rng Nat.add] ].

Section BmeTick.
Variable o : Oracle.
Variable self : DeviceEmulator.t.
Variable w : World.
Import RandomWalk DeviceEmulator.

Lemma bme_payload_eq (ts : string) :
  _bme_payload o self ts w =
    (Val ({| Bme.t_c := py_round (v (bme_temp o self w)) 2;
             Bme.rh_pct := py_round (v (bme_rh o self w)) 1;
             Bme.p_pa := py_round (v (bme_press o self w)) 0;
             Bme.gas_ohm := py_round (v (bme_gas o self w)) 0;
             Bme.iaq := py_round (bme_iaq_val o self w) 1;
             Bme.voc_index := py_round (bme_voc_val o self w) 1;
             Bme.co2_eq := py_round (bme_co2_val o self w) 0;
             Bme.ts := ts |},
          with_bme self (bme_temp o self w) (bme_rh o self w) (bme_press o self w)
            (bme_gas o self w) (bme_iaq o self w) (bme_voc o self w) (bme_co2 o self w)),
     skip_rng (bme_draws o w) w).
Proof.
  destruct (iaq_fires o w) eqn:E1; destruct (co2_fires o w) eqn:E2;
    unfold bme_draws, bme_co2_val, bme_voc_val, bme_iaq_val, voc_noise, bme_co2, bme_voc;
    rewrite ?E1, ?E2; unfold co2_fires in E2; unfold voc_at in *; rewrite ?E1 in *;
    unfold iaq_fires in E1; unfold bme_iaq, bme_gas, bme_press, bme_rh, bme_temp;
    cbn [Nat.add] in *;
    unfold _bme_payload; run_tick; rewrite E1; run_tick; rewrite E2; reflexivity.
Qed.
End BmeTick.

Section SpsTick.
Variable o : Oracle.
Variable self : DeviceEmulator.t.
Variable w : World.
Import RandomWalk DeviceEmulator.

Lemma sps_payload_eq (ts : string) :
  _sps_payload o self ts w =
    (Val ({| Sps.pm1_0 := py_round (v (sps_pm1 o self w)) 1;
             Sps.pm2_5 := py_round (v (sps_pm25 o self w)) 1;
             Sps.pm4_0 := py_round (v (sps_pm4 o self w)) 1;
             Sps.pm10 := py_round (v (sps_pm10 o self w)) 1;
             Sps.ts := ts |},
          with_sps self (sps_pm1 o self w) (sps_pm25 o self w) (sps_pm4 o self w)
            (sps_pm10 o self w)),
     skip_rng (sps_draws o w) w).
Proof.
  destruct (pm_fires o w) eqn:E;
    unfold sps_draws, sps_pm10, sps_pm4, sps_pm25, sps_pm1, sps_at,
      sps_pm10_start, sps_pm25_start, pm_bump;
    rewrite E; unfold pm_fires in E; cbn [Nat.add];
    unfold _sps_payload; run_tick; rewrite E; run_tick; reflexivity.
Qed.
End SpsTick.

Section DpTick.
Variable o : Oracle.
Variable self : DeviceEmulator.t.
Variable w : World.
Import RandomWalk DeviceEmulator.

Lemma dp_payload_eq (ch : Z) (walk : RandomWalk.t) (ts : string) :
  dp_walk self !! ch = Some walk ->
  _dp_payload o self ch ts w =
    (Val ({| Dp.dp_pa := py_round (v (stepped o walk (n_rng w))) 1; Dp.ts := ts |},
          with_dp_walk self (<[ch := stepped o walk (n_rng w)]> (dp_walk self))),
     skip_rng 2 w).
Proof.
  intros E. unfold _dp_payload. rewrite E. run_tick. reflexivity.
Qed.

Lemma dp_payload_missing (ch : Z) (ts : string) :
  dp_walk self !! ch = None ->
  _dp_payload o self ch ts w = (Exc (KeyError ch), w).
Proof.
  intros E. unfold _dp_payload. now rewrite E.
Qed.
End DpTick.

Local Close Scope float_scope.

(* ================================================================== *)
(** * Publish calls of a run *)

Section Attempted.
Variable o : Oracle.

Lemma all_return_app (n la lb : nat) :
  all_return o n (la + lb) = all_return o n la && all_return o (n + la) lb.
Proof.
  revert n. induction la as [|la IH]; intros n; simpl.
  - now rewrite Nat.add_0_r.
  - destruct (publish_outcome o n); [|reflexivity].
    rewrite IH. now rewrite Nat.add_succ_r.
Qed.

Lemma attempted_all (cs : list call) (n : nat) :
  all_return o n (length cs) = true -> attempted o n cs = cs.
Proof.
  revert n. induction cs as [|c cs IH]; intros n; simpl; [reflexivity|].
  destruct (publish_outcome o n); [|discriminate].
  intros H. now rewrite IH.
Qed.

Lemma attempted_app (a b : list call) (n : nat) :
  attempted o n (a ++ b) =
    if all_return o n (length a)
    then a ++ attempted o (n + length a) b
    else attempted o n a.
Proof.
  revert n. induction a as [|c a IH]; intros n; simpl.
  - now rewrite Nat.add_0_r.
  - destruct (publish_outcome o n); [|reflexivity].
    rewrite IH, Nat.add_succ_r. now destruct (all_return o (S n) (length a)).
Qed.

Lemma all_return_true (n len : nat) :
  (forall i, i < len -> publish_outcome o (n + i) <> Raised) ->
  all_return o n len = true.
Proof.
  revert n. induction len as [|len IH]; intros n H; simpl; [reflexivity|].
  pose proof (H 0 ltac:(lia)) as H0. rewrite Nat.add_0_r in H0.
  destruct (publish_outcome o n); [|congruence].
  apply IH. intros i Hi. specialize (H (S i) ltac:(lia)).
  now rewrite Nat.add_succ_r in H.
Qed.

Lemma attempted_first_raise (cs : list call) (n j : nat) :
  j < length cs ->
  (forall i, i < j -> publish_outcome o (n + i) <> Raised) ->
  publish_outcome o (n + j) = Raised ->
  attempted o n cs = take (S j) cs /\ all_return o n (length cs) = false.
Proof.
  revert n j. induction cs as [|c cs IH]; intros n j Hj Hlt Hr; simpl in *; [lia|].
  destruct j as [|j].
  - rewrite Nat.add_0_r in Hr. rewrite Hr. now rewrite take_0.
  - pose proof (Hlt 0 ltac:(lia)) as H0. rewrite Nat.add_0_r in H0.
    destruct (publish_outcome o n); [|congruence].
    destruct (IH (S n) j) as [E1 E2].
    + lia.
    + intros i Hi. specialize (Hlt (S i) ltac:(lia)).
      now rewrite Nat.add_succ_r in Hlt.
    + now rewrite Nat.add_succ_r in Hr.
    + now rewrite E1, E2.
Qed.
End Attempted.

(** ** What a computation publishes *)

Section Performs.
Variable o : Oracle.

Lemma performs_quiet {A} (c : M A) (Q : A -> Prop) :
  quiet c Q -> performs o c [] Q.
Proof.
  intros H w. destruct (H w) as (a & w' & E & Ht & Hp & Hl & HQ).
  rewrite E. simpl. rewrite app_nil_r. auto with lia.
Qed.

Lemma performs_weaken {A} (c : M A) (cs cs' : list call) (Q Q' : A -> Prop) :
  performs o c cs Q -> cs = cs' -> (forall a, Q a -> Q' a) -> performs o c cs' Q'.
Proof.
  intros H <- HQ w. destruct (H w) as (Ht & Hp & Hl & Hr).
  repeat split; auto. destruct (c w).1; intuition.
Qed.

Lemma performs_bind {A B} (c : M A) (k : A -> M B) (cs1 cs2 : list call)
    (Q1 : A -> Prop) (Q2 : B -> Prop) :
  performs o c cs1 Q1 ->
  (forall a, Q1 a -> performs o (k a) cs2 Q2) ->
  performs o (bind c k) (cs1 ++ cs2) Q2.
Proof.
  intros H1 H2 w. unfold bind.
  destruct (H1 w) as (Ht & Hp & Hl & Hr).
  destruct (c w) as [[a|e] w1]; simpl in *.
  - destruct Hr as [Hall HQ].
    rewrite (attempted_all o _ _ Hall) in Ht, Hp.
    destruct (H2 a HQ w1) as (Ht2 & Hp2 & Hl2 & Hr2).
    rewrite length_app, all_return_app, attempted_app, Hall.
    rewrite Hp in Ht2, Hp2, Hr2. rewrite Ht2, Hp2, Hl2, Ht, length_app.
    simpl. rewrite <- !app_assoc. repeat split; auto with lia.
  - destruct Hr as [Hall ->].
    rewrite length_app, all_return_app, attempted_app, Hall. auto.
Qed.

Lemma performs_ret {A} (a : A) (Q : A -> Prop) : Q a -> performs o (ret a) [] Q.
Proof.
  intros HQ. apply performs_quiet. intros w. exists a, w. auto.
Qed.

Lemma performs_publish (topic : string) (body : payload) (qos : Z) (retain : bool) :
  performs o (client_publish o topic body qos retain)
    [{| call_topic := topic; call_kind := kind_of body; call_retain := retain |}]
    (fun _ => True).
Proof.
  intros w. unfold client_publish.
  destruct (publish_outcome o (n_pub w)) eqn:E;
    cbn [fst snd tick_pub emit trace n_pub n_poll attempted all_return length];
    unfold calls; rewrite omap_app, E; simpl; auto with lia.
Qed.

Lemma performs_for_each {A S} (body : S -> A -> M S) (f : A -> list call)
    (I : S -> Prop) (xs : list A) :
  (forall s x, I s -> x ∈ xs -> performs o (body s x) (f x) I) ->
  forall s, I s -> performs o (for_each body s xs) (flat_map f xs) I.
Proof.
  induction xs as [|x xs IH]; intros Hb s Hs; simpl.
  - now apply performs_ret.
  - eapply performs_bind.
    + apply Hb; [assumption|left].
    + intros s' Hs'. apply IH; [|assumption].
      intros s0 y H0 Hy. apply Hb; [assumption|now right].
Qed.

Lemma performs_map_each {A B} (g : A -> M B) (f : A -> list call)
    (R : A -> B -> Prop) (xs : list A) :
  (forall x, x ∈ xs -> performs o (g x) (f x) (R x)) ->
  performs o (map_each g xs) (flat_map f xs) (Forall2 R xs).
Proof.
  induction xs as [|x xs IH]; intros Hg; simpl.
  - apply performs_ret. constructor.
  - eapply performs_bind; [apply Hg; left|].
    intros y Hy.
    eapply performs_weaken with (cs := flat_map f xs ++ []).
    + eapply performs_bind.
      * apply IH. intros z Hz. apply Hg. now right.
      * intros ys Hys. apply performs_ret with (Q := Forall2 R (x :: xs)).
        now constructor.
    + apply app_nil_r.
    + auto.
Qed.
End Performs.

(** ** The publish calls of a device *)

Lemma same_device_refl (a : DeviceEmulator.t) : same_device a a.
Proof. repeat split. Qed.

Lemma same_device_trans (a b c : DeviceEmulator.t) :
  same_device a b -> same_device b c -> same_device a c.
Proof. unfold same_device. intuition congruence. Qed.

Section DeviceCalls.
Variable o : Oracle.
Import DeviceEmulator.

Lemma performs_bind_quiet {A B} (c : M A) (k : A -> M B) (cs : list call)
    (Q1 : A -> Prop) (Q2 : B -> Prop) :
  quiet c Q1 ->
  (forall a, Q1 a -> performs o (k a) cs Q2) ->
  performs o (bind c k) cs Q2.
Proof.
  intros H1 H2. change cs with ([] ++ cs).
  eapply performs_bind; [apply performs_quiet, H1|exact H2].
Qed.

Lemma performs_bind_publish {B} (topic : string) (body : payload) (q : Z)
    (retain : bool) (k : unit -> M B) (cs : list call) (Q : B -> Prop) :
  performs o (k tt) cs Q ->
  performs o (bind (client_publish o topic body q retain) k)
    ({| call_topic := topic; call_kind := kind_of body; call_retain := retain |} :: cs) Q.
Proof.
  intros H.
  change (?c :: cs) with ([c] ++ cs).
  eapply performs_bind; [apply performs_publish|]. now intros [] _.
Qed.

Lemma quiet_rfc3339_now : quiet (rfc3339_now o) (fun _ => True).
Proof. intros w. now exists (clock_text o (n_clock w)), (tick_clock w). Qed.

Lemma quiet_randint (a b : Z) : quiet (randint o a b) (fun _ => True).
Proof. intros w. eexists _, _. repeat split. Qed.

Lemma quiet_bme (e : t) (ts : string) :
  quiet (_bme_payload o e ts)
    (fun pe => same_device e pe.2 /\ dp_walk pe.2 = dp_walk e).
Proof.
  intros w. rewrite bme_payload_eq. eexists _, _. repeat split.
Qed.

Lemma quiet_sps (e : t) (ts : string) :
  quiet (_sps_payload o e ts)
    (fun pe => same_device e pe.2 /\ dp_walk pe.2 = dp_walk e).
Proof.
  intros w. rewrite sps_payload_eq. eexists _, _. repeat split.
Qed.

Lemma quiet_dp (e : t) (ch : Z) (ts : string) :
  is_Some (dp_walk e !! ch) ->
  quiet (_dp_payload o e ch ts)
    (fun pe => same_device e pe.2
               /\ forall c, is_Some (dp_walk e !! c) -> is_Some (dp_walk pe.2 !! c)).
Proof.
  intros [walk E] w. rewrite (dp_payload_eq o e w ch walk ts E).
  eexists _, _. repeat split. simpl. intros c Hc.
  destruct (decide (ch = c)) as [->|Hne].
  - rewrite lookup_insert_eq. eauto.
  - now rewrite lookup_insert_ne.
Qed.

Lemma performs_publish_status (e : t) (online : bool) :
  performs o (publish_status o e online)
    [status_call (site e) (room e) (device e) online] (fun _ => True).
Proof.
  unfold publish_status.
  eapply performs_bind_quiet; [apply quiet_randint|]. intros rssi _.
  eapply performs_bind_quiet; [apply quiet_rfc3339_now|]. intros now _.
  apply performs_publish.
Qed.

Lemma performs_publish_dp (e0 e : t) (ts : string) (ch : Z) :
  same_device e0 e /\ walks_ready e ->
  ch ∈ dp_channels e0 ->
  performs o (publish_dp o ts e ch)
    [dp_call (site e0) (room e0) (device e0) ch]
    (fun e' => same_device e0 e' /\ walks_ready e').
Proof.
  intros [Hs Hr] Hch. unfold publish_dp.
  assert (Hin : ch ∈ dp_channels e) by (destruct Hs as (_ & _ & _ & _ & <-); exact Hch).
  eapply performs_bind_quiet; [apply quiet_dp, Hr, Hin|].
  intros [p e1] [Hs1 Hk]. simpl in Hs1, Hk.
  eapply performs_weaken with (Q := fun e' => e' = e1).
  - apply performs_bind_publish. now apply performs_ret.
  - unfold dp_call, topic_dp, base, topic_base. simpl.
    destruct Hs as (-> & -> & -> & _), Hs1 as (-> & -> & -> & _). reflexivity.
  - intros e' ->. split; [eapply same_device_trans; eauto|].
    intros c Hc. apply Hk, Hr. now destruct Hs1 as (_ & _ & _ & _ & ->).
Qed.

Lemma performs_publish_once (e : t) :
  walks_ready e ->
  performs o (publish_once o e)
    (telemetry_calls (site e) (room e) (device e) (dp_channels e))
    (fun e' => same_device e e' /\ walks_ready e').
Proof.
  intros Hr. unfold publish_once.
  eapply performs_bind_quiet; [apply quiet_rfc3339_now|]. intros ts _.
  eapply performs_bind_quiet; [apply quiet_bme|].
  intros [p1 e1] [Hs1 Hw1]. simpl in Hs1, Hw1.
  eapply performs_weaken with (Q := fun e' => same_device e e' /\ walks_ready e');
    [apply performs_bind_publish| |auto].
  2:{ unfold telemetry_calls, bme_call, topic_bme, base, topic_base. simpl.
      destruct Hs1 as (<- & <- & <- & _). reflexivity. }
  eapply performs_bind_quiet; [apply quiet_sps|].
  intros [p2 e2] [Hs2 Hw2]. simpl in Hs2, Hw2.
  pose proof (same_device_trans _ _ _ Hs1 Hs2) as Hs.
  eapply performs_weaken with (Q := fun e' => same_device e e' /\ walks_ready e');
    [apply performs_bind_publish| |auto].
  2:{ unfold sps_call, topic_sps, base, topic_base. simpl.
      destruct Hs as (<- & <- & <- & _). reflexivity. }
  assert (Hr2 : walks_ready e2).
  { intros c Hc. rewrite Hw2, Hw1. apply Hr.
    now destruct Hs as (_ & _ & _ & _ & ->). }
  eapply performs_weaken
    with (cs := flat_map (fun ch => [dp_call (site e) (room e) (device e) ch])
                  (dp_channels e2)).
  - apply performs_for_each with (I := fun e' => same_device e e' /\ walks_ready e').
    + intros s ch Hs' Hch. apply performs_publish_dp; [assumption|].
      now destruct Hs as (_ & _ & _ & _ & ->).
    + auto.
  - destruct Hs as (_ & _ & _ & _ & <-).
    induction (dp_channels e) as [|c cs IH]; simpl; [reflexivity|now rewrite IH].
  - auto.
Qed.
End DeviceCalls.

(* ================================================================== *)
(** * Construction *)

Section Construction.
Variable o : Oracle.
Import DeviceEmulator.
Local Open Scope float_scope.

Lemma skip_rng_0 (w : World) : skip_rng 0 w = w.
Proof. now destruct w. Qed.

Lemma skip_rng_tick (n : nat) (w : World) :
  skip_rng n (tick_rng w) = skip_rng (S n) w.
Proof. unfold skip_rng, tick_rng. simpl. f_equal. lia. Qed.

Lemma seed_loop_eq (chs : list Z) :
  forall (walks : gmap Z RandomWalk.t) (w : World),
    for_each (seed_dp o) walks chs w =
      (Val (seeded o walks chs (n_rng w)), skip_rng (length chs) w).
Proof.
  induction chs as [|ch rest IH]; intros walks w; simpl.
  - now rewrite skip_rng_0.
  - unfold bind at 1. unfold seed_dp at 1. run_tick.
    rewrite IH. simpl. now rewrite skip_rng_tick.
Qed.

Lemma seeded_lookup (chs : list Z) :
  forall (walks : gmap Z RandomWalk.t) (k : nat) (ch : Z),
    (ch ∈ chs ->
       exists i, (i < length chs)%nat
                 /\ seeded o walks chs k !! ch = Some (dp_seed o ch (k + i)))
    /\ (ch ∉ chs -> seeded o walks chs k !! ch = walks !! ch).
Proof.
  induction chs as [|c rest IH]; intros walks k ch; simpl.
  - split; [intros H; inversion H|reflexivity].
  - destruct (IH (<[c := dp_seed o c k]> walks) (S k) ch) as [IHin IHout].
    destruct (decide (ch ∈ rest)) as [Hin|Hout].
    + split.
      * intros _. destruct (IHin Hin) as (i & Hi & E).
        exists (S i). split; [lia|]. now rewrite Nat.add_succ_r.
      * intros Hn. exfalso. apply Hn. now right.
    + split.
      * intros H. apply elem_of_cons in H as [->|H]; [|contradiction].
        exists 0%nat. split; [lia|].
        rewrite (IHout Hout), lookup_insert_eq. now rewrite Nat.add_0_r.
      * intros Hn. rewrite (IHout Hout). apply lookup_insert_ne.
        intros ->. apply Hn. left.
Qed.

Lemma init_eq (site room device : string) (interval : float) (qos : Z)
    (chs : list Z) (w : World) :
  init o site room device interval qos chs w =
    (Val {| site := site; room := room; device := device;
            interval := interval; qos := qos; dp_channels := chs;
            temp := RandomWalk.init (18 + (23 - 18) * rand_unit o (n_rng w)) 0.05 10 35;
            rh := RandomWalk.init (35 + (55 - 35) * rand_unit o (S (n_rng w))) 0.2 15 90;
            press_pa := RandomWalk.init 101325 30 98000 104000;
            gas := RandomWalk.init 50000 500 1000 200000;
            iaq := RandomWalk.init 35.0 2.5 5.0 250.0;
            voc_index := RandomWalk.init 15.0 2.0 0.0 500.0;
            co2_eq := RandomWalk.init 600.0 15.0 400.0 2000.0;
            pm1 := RandomWalk.init 3 0.5 0 100;
            pm25 := RandomWalk.init 6 0.8 0 200;
            pm4 := RandomWalk.init 8 1.0 0 250;
            pm10 := RandomWalk.init 10 1.2 0 300;
            dp_walk := seeded o ∅ chs (2 + n_rng w) |},
     skip_rng (2 + length chs) w).
Proof.
  unfold init. run_tick. rewrite seed_loop_eq. simpl.
  rewrite !skip_rng_tick. reflexivity.
Qed.

Lemma quiet_init (site room device : string) (interval : float) (qos : Z)
    (chs : list Z) :
  quiet (init o site room device interval qos chs)
    (fun e => DeviceEmulator.site e = site /\ DeviceEmulator.room e = room
              /\ DeviceEmulator.device e = device /\ DeviceEmulator.qos e = qos
              /\ dp_channels e = chs /\ walks_ready e).
Proof.
  intros w. rewrite init_eq. eexists _, _. split; [reflexivity|].
  repeat split. intros ch Hch. cbn [dp_walk dp_channels] in *.
  destruct (seeded_lookup chs ∅ (2 + n_rng w) ch) as [Hin _].
  destruct (Hin Hch) as (i & _ & E). rewrite E. eauto.
Qed.
End Construction.

(* ================================================================== *)
(** * The scheduler *)

Section Scheduler.
Variable o : Oracle.
Variable args : Args.
Import DeviceEmulator.


Lemma fleet_status (emus : list DeviceEmulator.t) (online : bool) :
  fleet args emus ->
  map (fun e => status_call (site e) (room e) (device e) online) emus
  = status_calls args online.
Proof.
  unfold fleet, status_calls.
  induction 1 as [|dev e devs emus (E1 & E2 & E3 & _) _ IH]; simpl;
    [reflexivity|now rewrite IH, E1, E2, E3].
Qed.




Lemma performs_announce (online : bool) (emus : list DeviceEmulator.t) :
  performs o (announce o online emus)
    (map (fun e => status_call (site e) (room e) (device e) online) emus)
    (fun _ => True).
Proof.
  unfold announce.
  eapply performs_weaken
    with (cs := flat_map (fun e => [status_call (site e) (room e) (device e) online]) emus).
  - apply performs_for_each with (I := fun _ : unit => True); [|exact I].
    intros [] e _ _. apply performs_publish_status.
  - induction emus as [|e emus IH]; simpl; [reflexivity|now rewrite IH].
  - auto.
Qed.

Lemma performs_create :
  performs o
    (map_each (fun dev => init o (arg_site args) (arg_room args) dev
                            (arg_interval args) (arg_qos args) (arg_dp_channels args))
              (arg_devices args))
    [] (fleet args).
Proof.
  eapply performs_weaken with (cs := flat_map (fun _ => []) (arg_devices args)).
  - apply performs_map_each
      with (R := fun dev e => site e = arg_site args /\ room e = arg_room args
                              /\ device e = dev /\ qos e = arg_qos args
                              /\ dp_channels e = arg_dp_channels args /\ walks_ready e).
    intros dev _. apply performs_quiet, quiet_init.
  - induction (arg_devices args) as [|d ds IH]; simpl; auto.
  - auto.
Qed.

Lemma performs_startup :
  performs o (startup o args) (status_calls args true) (fleet args).
Proof.
  unfold startup. change (status_calls args true) with ([] ++ status_calls args true).
  eapply performs_bind; [apply performs_create|].
  intros emus Hf. rewrite <- (fleet_status emus true Hf).
  rewrite <- (app_nil_r (map _ emus)).
  eapply performs_bind; [apply performs_announce|].
  intros [] _. now apply performs_ret.
Qed.





End Scheduler.

(* ================================================================== *)
(** * Properties of the signal model *)

(** Closes [x <> y] for two float constants: their binary expansions differ. *)
Ltac float_differ :=
  let E := fresh "E" in
  intros E; apply (f_equal Prim2SF) in E; vm_compute in E; discriminate E.

Section SignalModel.
Import RandomWalk DeviceEmulator.
Local Open Scope float_scope.

(** C4.  Boundedness: for a walk with [lo <= hi], any number of [next()]
    calls, with any jitter scales (of either sign) and any draws -- infinite
    or NaN ones too -- returns each time a value between [lo] and [hi], which
    is also the value the walk then stores; the bounds stay as they were. *)
Theorem random_walk_bounded (o : Oracle) (self : RandomWalk.t)
    (jitters : list float) (w : World) :
  (lo self <=? hi self) = true ->
  exists rs w',
    advances o self jitters w = (Val rs, w')
    /\ length rs = length jitters
    /\ Forall (fun r => v r.2 = r.1
                        /\ (lo self <=? r.1) = true /\ (r.1 <=? hi self) = true
                        /\ lo r.2 = lo self /\ hi r.2 = hi self) rs.
Proof.
  intros Hb. destruct (advances_spec o jitters self w Hb) as (rs & w' & E & L & F).
  exists rs, w'. repeat split; auto.
  eapply Forall_impl; [exact F|]. intros [x walk] (H1 & [H2 H3] & H4 & H5 & _).
  auto.
Qed.

(** A run of three calls on the temperature walk under noisy draws. *)
Lemma random_walk_bounded_witness :
  (10 <=? 35) = true
  /\ exists rs w',
      advances (calm_but_normal 1 400) (RandomWalk.init 20 0.05 10 35)
               [0.5; 0.5; 2] world0 = (Val rs, w')
      /\ length rs = 3%nat
      /\ Forall (fun r => v r.2 = r.1
                          /\ (10 <=? r.1) = true /\ (r.1 <=? 35) = true
                          /\ lo r.2 = 10 /\ hi r.2 = 35) rs.
Proof.
  split; [reflexivity|].
  apply (random_walk_bounded (calm_but_normal 1 400)
           (RandomWalk.init 20 0.05 10 35) [0.5; 0.5; 2] world0).
  reflexivity.
Defined.

(** The same run, evaluated: the first call is pushed to the upper bound. *)
Example random_walk_run :
  advances (calm_but_normal 1 400) (RandomWalk.init 20 0.05 10 35)
           [0.5; 0.5] world0
  = (Val [(35, RandomWalk.init 35 0.05 10 35); (35, RandomWalk.init 35 0.05 10 35)],
     skip_rng 4 world0).
Proof. vm_compute. reflexivity. Qed.

(** A NaN reaching [clamp] leaves it as the upper bound. *)
Example clamp_nan : clamp nan 10 35 = 35 /\ clamp infinity 10 35 = 35
                    /\ clamp neg_infinity 10 35 = 10.
Proof. repeat split. Qed.

(** C1 (as amended).  Every numeric field of the environmental payload is
    [round(., n)] of its reading: the temperature with [n = 2]; humidity,
    IAQ and VOC index with [n = 1]; pressure, gas resistance and
    CO2-equivalent with [n = 0].  The readings of the four plain quantities
    are the values their walks store after the call. *)
Theorem bme_payload_rounding (o : Oracle) (self : DeviceEmulator.t)
    (ts : string) (w : World) :
  exists p self' w',
    _bme_payload o self ts w = (Val (p, self'), w')
    /\ Bme.t_c p = py_round (v (temp self')) 2
    /\ Bme.rh_pct p = py_round (v (rh self')) 1
    /\ Bme.p_pa p = py_round (v (press_pa self')) 0
    /\ Bme.gas_ohm p = py_round (v (gas self')) 0
    /\ Bme.iaq p = py_round (bme_iaq_val o self w) 1
    /\ Bme.voc_index p = py_round (bme_voc_val o self w) 1
    /\ Bme.co2_eq p = py_round (bme_co2_val o self w) 0.
Proof.
  rewrite bme_payload_eq. eexists _, _, _. repeat split.
Qed.

(** C1 as stated fails.  With a temperature walk started at 20.5 and one
    Gaussian deviate of 2, the reported temperature is 20.75: not the 1-decimal
    rounding of the reading, and not a 1-decimal value at all. *)
Lemma bme_temperature_two_decimals :
  exists self w p self' w',
    fresh (calm_but_normal 4 2) [1%Z] = (Val self, w)
    /\ _bme_payload (calm_but_normal 4 2) self "t0" w = (Val (p, self'), w')
    /\ v (temp self') = 20.75
    /\ Bme.t_c p = 20.75
    /\ Bme.t_c p <> py_round (v (temp self')) 1
    /\ py_round (Bme.t_c p) 1 <> Bme.t_c p.
Proof.
  eexists _, _, _, _, _.
  split; [vm_compute; reflexivity|].
  split; [vm_compute; reflexivity|].
  cbn [temp with_bme Bme.t_c RandomWalk.v RandomWalk.set_v].
  repeat split; try (vm_compute; reflexivity); float_differ.
Qed.

(** Adding [0.0] changes at most the sign of a zero, which [clamp] onto
    [[0, 500]] does not see. *)
Lemma add_zero_not_neg_zero (x : float) :
  Prim2SF x <> S754_zero true -> x + 0 = x.
Proof.
  intros H. apply Prim2SF_inj. rewrite add_spec.
  change (Prim2SF 0) with (S754_zero false).
  destruct (Prim2SF x) as [[]| | |]; try reflexivity. congruence.
Qed.

Lemma clamp_add_zero (x : float) : clamp (x + 0) 0 500 = clamp x 0 500.
Proof.
  destruct (Prim2SF x) as [[]| | |] eqn:E;
    try (rewrite add_zero_not_neg_zero; [reflexivity|rewrite E; discriminate]).
  assert (x = neg_zero) as -> by (apply Prim2SF_inj; rewrite E; reflexivity).
  reflexivity.
Qed.

(** C6.  VOC coupling: the VOC index reported is (the 1-decimal rounding of)
    the VOC walk's advanced value plus a noise term [U(-3, 3)] plus
    [0.3 * (iaq - 35)], brought into [[0, 500]], where [iaq] is the IAQ
    reading after its possible excursion: the value rounded lies between 0
    and 500, is the sum itself when the sum does, and is the bound the sum
    has passed otherwise.  When the IAQ reading is exactly 35.0 the coupling
    term vanishes: the value rounded is the walk value plus the noise alone,
    brought into [[0, 500]] the same way. *)
Theorem voc_coupling (o : Oracle) (self : DeviceEmulator.t) (ts : string)
    (w : World) :
  exists p self' w' voc_val,
    _bme_payload o self ts w = (Val (p, self'), w')
    /\ voc_index self' = stepped o (voc_index self) (voc_at o w)
    /\ voc_noise o w = -3 + (3 - -3) * rand_unit o (2 + voc_at o w)
    /\ Bme.iaq p = py_round (bme_iaq_val o self w) 1
    /\ clamped (v (voc_index self') + voc_noise o w
                + 0.3 * (bme_iaq_val o self w - 35.0)) 0.0 500.0 voc_val
    /\ Bme.voc_index p = py_round voc_val 1
    /\ (bme_iaq_val o self w = 35.0 ->
        clamped (v (voc_index self') + voc_noise o w) 0.0 500.0 voc_val).
Proof.
  rewrite bme_payload_eq. eexists _, _, _, (bme_voc_val o self w).
  split; [reflexivity|].
  cbn [voc_index with_bme Bme.iaq Bme.voc_index].
  do 3 (split; [reflexivity|]).
  split; [apply clamp_clamped; reflexivity|]. split; [reflexivity|].
  intros E. unfold bme_voc_val. rewrite E.
  change (0.3 * (35.0 - 35.0)) with 0. rewrite clamp_add_zero.
  apply clamp_clamped. reflexivity.
Qed.

(** In a calm tick from a fresh emulator the IAQ reading is exactly 35.0 and
    the VOC index is the walk value 15.0, the centred noise being zero. *)
Example voc_at_baseline :
  exists self w p self' w',
    fresh calm [1%Z] = (Val self, w)
    /\ _bme_payload calm self "t0" w = (Val (p, self'), w')
    /\ bme_iaq_val calm self w = 35.0
    /\ v (voc_index self') = 15.0
    /\ Bme.voc_index p = 15.0.
Proof.
  eexists _, _, _, _, _.
  split; [vm_compute; reflexivity|].
  split; [vm_compute; reflexivity|].
  repeat split; vm_compute; reflexivity.
Qed.

(** C10.  The IAQ and CO2-equivalent excursions touch the readings only: after
    any call each of the two walks stores exactly what its own [next()] call
    left -- the value that call returned -- whether or not an excursion fired;
    a fired excursion shows in the reported reading alone. *)
Theorem excursions_leave_walks (o : Oracle) (self : DeviceEmulator.t)
    (ts : string) (w : World) :
  exists p self' w',
    _bme_payload o self ts w = (Val (p, self'), w')
    /\ (forall w1, n_rng w1 = (8 + n_rng w)%nat ->
          RandomWalk.next o (iaq self) default_jitter w1
          = (Val (v (iaq self'), iaq self'), skip_rng 2 w1))
    /\ (forall w1, n_rng w1 = (3 + voc_at o w)%nat ->
          RandomWalk.next o (co2_eq self) default_jitter w1
          = (Val (v (co2_eq self'), co2_eq self'), skip_rng 2 w1))
    /\ Bme.iaq p =
         py_round (if iaq_fires o w
                   then clamp (v (iaq self')
                               + (20 + (80 - 20) * rand_unit o (11 + n_rng w))) 5.0 250.0
                   else v (iaq self')) 1
    /\ Bme.co2_eq p =
         py_round (if co2_fires o w
                   then clamp (v (co2_eq self')
                               + (100 + (300 - 100) * rand_unit o (6 + voc_at o w)))
                              400.0 2000.0
                   else v (co2_eq self')) 0.
Proof.
  rewrite bme_payload_eq. eexists _, _, _. split; [reflexivity|].
  cbn [iaq co2_eq with_bme Bme.iaq Bme.co2_eq].
  repeat split; intros w1 E; rewrite next_stepped, E; reflexivity.
Qed.

Lemma fresh_calm : fresh calm [1%Z] = (Val emu0, skip_rng 3 world0).
Proof. vm_compute. reflexivity. Qed.



(** Two consecutive ticks, evaluated: the event tick reads 26.0 and 34.0 for
    PM2.5 and PM10, and so does the tick after it, in which no event fires;
    without the event both ticks read 6.0 and 10.0. *)
Example particulate_event_two_ticks :
  exists p1 self1 w1 p2 self2 w2,
    _sps_payload (calm_but_unit 3 0) emu0 "t0" (skip_rng 3 world0) = (Val (p1, self1), w1)
    /\ _sps_payload (calm_but_unit 3 0) self1 "t1" w1 = (Val (p2, self2), w2)
    /\ pm_fires (calm_but_unit 3 0) w1 = false
    /\ (Sps.pm2_5 p1, Sps.pm10 p1) = (26, 34)
    /\ (Sps.pm2_5 p2, Sps.pm10 p2) = (26, 34)
    /\ (v (pm25 self2), v (pm10 self2)) = (26, 34)
    /\ exists q1 e1 u1 q2 e2 u2,
         _sps_payload calm emu0 "t0" (skip_rng 3 world0) = (Val (q1, e1), u1)
         /\ _sps_payload calm e1 "t1" u1 = (Val (q2, e2), u2)
         /\ (Sps.pm2_5 q1, Sps.pm10 q1) = (6, 10)
         /\ (Sps.pm2_5 q2, Sps.pm10 q2) = (6, 10).
Proof.
  eexists _, _, _, _, _, _.
  split; [vm_compute; reflexivity|].
  split; [vm_compute; reflexivity|].
  do 4 (split; [vm_compute; reflexivity|]).
  eexists _, _, _, _, _, _.
  split; [vm_compute; reflexivity|].
  split; [vm_compute; reflexivity|].
  split; vm_compute; reflexivity.
Qed.

(** C2 (as amended).  The walk of a configured channel is seeded by the
    channel's identifier: from -80 for the channel numbered 1 and from -95 for
    any other, plus a [U(-8, 8)] draw taken at construction; step and bounds
    are the same for all.  The baseline is nowhere else: a tick of a channel
    is one [next()] call on the walk stored for it. *)
Theorem dp_walk_seeds (o : Oracle) (site room dev : string) (interval : float)
    (qos : Z) (chs : list Z) (w : World) (i : nat) (ch : Z) :
  chs !! i = Some ch ->
  exists self w' k,
    init o site room dev interval qos chs w = (Val self, w')
    /\ (2 + n_rng w <= k < n_rng w')%nat
    /\ dp_walk self !! ch =
         Some (RandomWalk.init
                 ((if (ch =? 1)%Z then -80.0 else -95.0)
                  + (-8 + (8 - -8) * rand_unit o k))
                 3.0 (-300) 20)
    /\ forall (e : DeviceEmulator.t) (walk : RandomWalk.t) (ts : string) (w1 : World),
         dp_walk e !! ch = Some walk ->
         _dp_payload o e ch ts w1 =
           (Val ({| Dp.dp_pa := py_round (v (stepped o walk (n_rng w1))) 1; Dp.ts := ts |},
                 with_dp_walk e (<[ch := stepped o walk (n_rng w1)]> (dp_walk e))),
            skip_rng 2 w1).
Proof.
  intros Hi. rewrite init_eq.
  destruct (seeded_lookup o chs ∅ (2 + n_rng w) ch) as [Hin _].
  destruct Hin as (j & Hj & E); [eapply list_elem_of_lookup_2; eauto|].
  eexists _, _, (2 + n_rng w + j)%nat. split; [reflexivity|].
  split; [cbn [n_rng skip_rng]; lia|].
  split; [exact E|].
  intros e walk ts w1. apply dp_payload_eq.
Qed.

Lemma dp_walk_seeds_witness :
  [1%Z; 2%Z] !! 1%nat = Some 2%Z
  /\ exists self w' k,
      init calm "home1" "lab" "pico2w-01" 5 0 [1%Z; 2%Z] world0 = (Val self, w')
      /\ (2 <= k < n_rng w')%nat
      /\ dp_walk self !! 2%Z =
           Some (RandomWalk.init (-95.0 + (-8 + (8 - -8) * rand_unit calm k))
                   3.0 (-300) 20).
Proof.
  split; [reflexivity|].
  destruct (dp_walk_seeds calm "home1" "lab" "pico2w-01" 5 0 [1%Z; 2%Z] world0
              1 2%Z eq_refl) as (self & w' & k & E & Hk & Hw & _).
  exists self, w', k. repeat split; try assumption; apply Hk.
Defined.

(** C2 as stated fails.  With the channels configured as [[2; 1]], the first
    configured channel (number 2) starts at -95 and the second (number 1) at
    -80: the baseline follows the number, not the position. *)
Lemma dp_baseline_follows_number :
  exists self w' first second,
    init calm "home1" "lab" "pico2w-01" 5 0 [2%Z; 1%Z] world0 = (Val self, w')
    /\ dp_channels self !! 0%nat = Some 2%Z
    /\ dp_walk self !! 2%Z = Some first
    /\ dp_walk self !! 1%Z = Some second
    /\ v first = -95 /\ v second = -80
    /\ (v first <? -88) = true /\ (-87 <? v second) = true.
Proof.
  eexists _, _, _, _.
  split; [vm_compute; reflexivity|].
  repeat split; vm_compute; reflexivity.
Qed.
End SignalModel.

(* ================================================================== *)
(** * Properties of a tick *)

Section Emits.
Variable o : Oracle.
Import DeviceEmulator.

Lemma emits_still {A} (P : event -> Prop) (c : M A) (Q : A -> Prop) :
  (forall w, trace (c w).2 = trace w /\ n_clock (c w).2 = n_clock w
             /\ match (c w).1 with Val a => Q a | Exc _ => True end) ->
  emits P c Q.
Proof.
  intros H w. destruct (H w) as (Ht & Hc & HQ). exists []. rewrite app_nil_r. auto.
Qed.

Lemma emits_bind {A B} (P : event -> Prop) (c : M A) (k : A -> M B)
    (Q1 : A -> Prop) (Q2 : B -> Prop) :
  emits P c Q1 -> (forall a, Q1 a -> emits P (k a) Q2) -> emits P (bind c k) Q2.
Proof.
  intros Hc Hk w. unfold bind. destruct (Hc w) as (n1 & T1 & F1 & C1 & HQ).
  destruct (c w) as [[a|e] w1]; simpl in *.
  - destruct (Hk a HQ w1) as (n2 & T2 & F2 & C2 & HQ2).
    exists (n1 ++ n2). rewrite T2, T1, C2, C1, app_assoc.
    repeat split; [now apply Forall_app|exact HQ2].
  - now exists n1.
Qed.

Lemma emits_for_each {A S} (P : event -> Prop) (body : S -> A -> M S) (xs : list A) :
  (forall s x, emits P (body s x) (fun _ => True)) ->
  forall s, emits P (for_each body s xs) (fun _ => True).
Proof.
  intros Hb. induction xs as [|x xs IH]; intros s; simpl.
  - apply emits_still. now intros w.
  - eapply emits_bind; auto.
Qed.

Lemma emits_publish (P : event -> Prop) (topic : string) (body : payload)
    (q : Z) (retain : bool) :
  P (EPublish topic body q retain) ->
  emits P (client_publish o topic body q retain) (fun _ => True).
Proof.
  intros HP w. exists [EPublish topic body q retain]. unfold client_publish.
  destruct (publish_outcome o (n_pub w)); simpl; auto.
Qed.

Lemma emits_publish_dp (ts : string) (self : t) (ch : Z) :
  emits (stamped ts) (publish_dp o ts self ch) (fun _ => True).
Proof.
  unfold publish_dp.
  eapply emits_bind with (Q1 := fun pe => Dp.ts pe.1 = ts).
  { apply emits_still. intros w. unfold _dp_payload.
    destruct (dp_walk self !! ch) as [walk|]; [|now split].
    unfold bind. now rewrite next_stepped. }
  intros [p e] Hp. eapply emits_bind.
  { apply emits_publish. now split. }
  intros _ _. apply emits_still. now intros w.
Qed.

(** What follows the clock reading in [publish_once]. *)
Lemma emits_after_clock (ts : string) (self : t) :
  emits (stamped ts)
    (let* (p, self) := _bme_payload o self ts in
     client_publish o (topic_bme self) (PBme p) (qos self) false ;;;
     let* (p, self) := _sps_payload o self ts in
     client_publish o (topic_sps self) (PSps p) (qos self) false ;;;
     for_each (publish_dp o ts) self (dp_channels self))
    (fun _ => True).
Proof.
  eapply emits_bind with (Q1 := fun pe => Bme.ts pe.1 = ts).
  { apply emits_still. intros w. now rewrite bme_payload_eq. }
  intros [p1 e1] H1. eapply emits_bind.
  { apply emits_publish. now split. }
  intros _ _. eapply emits_bind with (Q1 := fun pe => Sps.ts pe.1 = ts).
  { apply emits_still. intros w. now rewrite sps_payload_eq. }
  intros [p2 e2] H2. eapply emits_bind.
  { apply emits_publish. now split. }
  intros _ _. apply emits_for_each. intros s ch. apply emits_publish_dp.
Qed.

(** C7.  One timestamp per tick: [publish_once] reads the clock exactly once,
    at its start, and every event it adds to the trace is a telemetry publish
    carrying that reading -- whatever the draws, and whether or not a publish
    raises.  With a walk for every configured channel these publishes are the
    environmental one, the particulate one and one per channel, as far as the
    first that raises. *)
Theorem tick_shares_timestamp (self : t) (w : World) :
  exists new,
    trace (publish_once o self w).2 = trace w ++ new
    /\ n_clock (publish_once o self w).2 = S (n_clock w)
    /\ Forall (stamped (clock_text o (n_clock w))) new
    /\ (walks_ready self ->
        calls new = attempted o (n_pub w)
                      (telemetry_calls (site self) (room self) (device self)
                         (dp_channels self))).
Proof.
  pose proof (performs_publish_once o self) as Hp.
  unfold publish_once in *. unfold bind at 1 in Hp. unfold bind at 1.
  cbn [rfc3339_now] in *.
  destruct (emits_after_clock (clock_text o (n_clock w)) self (tick_clock w))
    as (new & T & F & C & _).
  exists new. repeat split; auto.
  intros Hr. destruct (Hp Hr w) as (Hc & _).
  cbn [rfc3339_now] in Hc. rewrite T in Hc. cbn [trace tick_clock n_pub] in Hc.
  unfold calls in *. rewrite omap_app in Hc. now apply app_inv_head in Hc.
Qed.
End Emits.

(* ================================================================== *)
(** * Properties of the scheduler *)

Section SchedulerRuns.
Variable o : Oracle.
Import DeviceEmulator.
Local Open Scope float_scope.

(** C9.  Timing: a round that completes is followed by one call of
    [time.sleep], with [interval - elapsed], exactly when that difference is
    positive, and by nothing otherwise -- in particular when the round took
    the interval or longer.  When the call returns, and when there was none,
    the loop goes on with its next test of the stop flag and, the flag
    unset, one more round: a late round is followed by one round, not by
    several.  When [time.sleep] raises, as it does for a duration that does
    not fit its count of nanoseconds, the round was the last. *)
Theorem sleep_is_remaining_interval (interval : float)
    (emus : list DeviceEmulator.t) (w : World) :
  (match map_each (publish_once o) emus (tick_clock w) with
   | (Val emus', w1) =>
       let elapsed := clock_secs o (n_clock w1) - clock_secs o (n_clock w) in
       let rest := interval - elapsed in
       ((0 <? rest) = true ->
        loop_body o interval emus w
        = (match sleep_outcome o rest (S (n_clock w1)) with
           | None => Val emus'
           | Some x => Exc x
           end,
           emit (ESleep rest) (tick_clock w1)))
       /\ ((0 <? rest) = false ->
           loop_body o interval emus w = (Val emus', tick_clock w1))
       /\ ((interval <=? elapsed) = true -> (0 <? rest) = false)
   | (Exc e, w1) => loop_body o interval emus w = (Exc e, w1)
   end)
  /\ (forall fuel w0,
        stop_flag o (n_poll w0) = false ->
        main_loop o (S fuel) interval emus w0
        = match loop_body o interval emus (tick_poll w0) with
          | (Val emus', w2) => main_loop o fuel interval emus' w2
          | (Exc e, w2) => Some (Exc e, w2)
          end).
Proof.
  split.
  - destruct (map_each (publish_once o) emus (tick_clock w)) as [[emus'|e] w1] eqn:E;
      unfold loop_body, bind, time_time, ret; rewrite E; [|reflexivity].
    cbv zeta. unfold gtb. repeat split.
    + intros H. rewrite H. unfold time_sleep. cbn [n_clock tick_clock].
      now destruct (sleep_outcome o _ _).
    + intros H. now rewrite H.
    + intros H. now apply leb_sub_not_pos.
  - intros fuel w0 H. cbn [main_loop read_stop_flag]. now rewrite H.
Qed.
End SchedulerRuns.

Section Lifecycle.
Variable o : Oracle.
Variable args : Args.
Import DeviceEmulator.

Lemma performs_shutdown_emus (emus : list DeviceEmulator.t) :
  performs o (shutdown o emus)
    (map (fun e => status_call (site e) (room e) (device e) false) emus)
    (fun _ => True).
Proof.
  unfold shutdown. rewrite <- (app_nil_r (map _ emus)).
  eapply performs_bind; [apply performs_announce|]. intros [] _.
  eapply performs_bind_quiet with (Q1 := fun _ => True).
  - intros w. exists tt, (emit ELoopStop w). repeat split.
    unfold calls. simpl. rewrite omap_app. simpl. apply app_nil_r.
  - intros [] _. apply performs_quiet. intros w.
    exists tt, (emit EDisconnect w). repeat split.
    unfold calls. simpl. rewrite omap_app. simpl. apply app_nil_r.
Qed.



End Lifecycle.

Section LifecycleClaims.
Variable o : Oracle.
Import DeviceEmulator.

(** C3 (as amended).  Shutdown announces the devices in order until a publish
    raises: a publish that returns, whatever its result code, is followed by
    the attempt for the next device, so every device is attempted when none
    raises; the first publish that raises ends the block, and the devices
    after it are not attempted. *)
Theorem offline_until_first_raise (emus : list DeviceEmulator.t) (w : World) :
  let offline := map (fun e => status_call (site e) (room e) (device e) false) emus in
  ((forall i, i < length emus -> publish_outcome o (n_pub w + i) <> Raised) ->
   (shutdown o emus w).1 = Val tt
   /\ calls (trace (shutdown o emus w).2) = calls (trace w) ++ offline)
  /\ (forall i,
        i < length emus ->
        (forall j, j < i -> publish_outcome o (n_pub w + j) <> Raised) ->
        publish_outcome o (n_pub w + i) = Raised ->
        (shutdown o emus w).1 = Exc PublishError
        /\ calls (trace (shutdown o emus w).2) = calls (trace w) ++ take (S i) offline).
Proof.
  intros offline.
  destruct (performs_shutdown_emus o emus w) as (Hc & _ & _ & Hr).
  fold offline in Hc, Hr.
  assert (Hlen : length offline = length emus) by (unfold offline; now rewrite length_map).
  rewrite Hlen in Hr. split.
  - intros Hok. pose proof (all_return_true o (n_pub w) (length emus) Hok) as Hall.
    rewrite Hall in Hr.
    rewrite attempted_all in Hc by now rewrite Hlen.
    split; [|exact Hc].
    destruct (shutdown o emus w).1 as [[]|e]; [reflexivity|now destruct Hr].
  - intros i Hi Hbefore Hraise.
    destruct (attempted_first_raise o offline (n_pub w) i) as [Ha Hall]; auto;
      [now rewrite Hlen|].
    rewrite Hlen in Hall. rewrite Hall in Hr. rewrite Ha in Hc.
    split; [|exact Hc].
    destruct (shutdown o emus w).1 as [[]|e]; [now destruct Hr|].
    now destruct Hr as [_ ->].
Qed.

End LifecycleClaims.

(* ================================================================== *)
(** * Runs, evaluated *)

Section Runs.
Import DeviceEmulator.
Local Open Scope string_scope.

(** One tick of the fresh emulator: three publishes, all stamped with the
    first clock reading, though the clock would answer ["t1"] next. *)
Example tick_run :
  stamps (trace (publish_once calm emu0 (skip_rng 3 world0)).2)
  = [("iot/home1/lab/pico2w-01/telemetry/bme688", "t0");
     ("iot/home1/lab/pico2w-01/telemetry/sps30", "t0");
     ("iot/home1/lab/pico2w-01/telemetry/dp/1", "t0")]
  /\ clock_text calm 1 = "t1".
Proof. split; vm_compute; reflexivity. Qed.

(** A round of 2 s against an interval of 5 s is followed by a sleep of 3 s;
    a round of 7 s by none. *)
Example sleep_run :
  sleeps (trace (loop_body (scripted 1 no_failure 100 102) 5 [emu0]
                   (skip_rng 3 world0)).2) = [3%float]
  /\ sleeps (trace (loop_body (scripted 1 no_failure 100 107) 5 [emu0]
                      (skip_rng 3 world0)).2) = [].
Proof. split; vm_compute; reflexivity. Qed.

(** What [time.sleep] takes: 3 s and 9.2e9 s pass its check; 1e10 s and an
    infinite duration are too many nanoseconds for its 64-bit count. *)
Example sleep_check_run :
  sleep_check 3%float = None
  /\ sleep_check 9200000000%float = None
  /\ sleep_check 10000000000%float = Some OverflowError
  /\ sleep_check infinity = Some OverflowError.
Proof. repeat split. Qed.


(** The same run, evaluated: topics and retain flags of the ten calls. *)
Example lifecycle_run :
  exists w',
    main (scripted 1 no_failure 0 0) 3 two_devices world0 = Some (Val tt, w')
    /\ map (fun c => (call_topic c, call_retain c)) (calls (trace w'))
       = [("iot/home1/lab/a/status", true); ("iot/home1/lab/b/status", true);
          ("iot/home1/lab/a/telemetry/bme688", false);
          ("iot/home1/lab/a/telemetry/sps30", false);
          ("iot/home1/lab/a/telemetry/dp/1", false);
          ("iot/home1/lab/b/telemetry/bme688", false);
          ("iot/home1/lab/b/telemetry/sps30", false);
          ("iot/home1/lab/b/telemetry/dp/1", false);
          ("iot/home1/lab/a/status", true); ("iot/home1/lab/b/status", true)].
Proof.
  eexists. split; [vm_compute; reflexivity|]. vm_compute. reflexivity.
Qed.

(** A round that fails at its second publish is cut there, and both offline
    announcements follow. *)
Example failed_round_run :
  exists w',
    main (scripted 5 (Nat.eqb 3) 0 0) 9 two_devices world0
    = Some (Exc PublishError, w')
    /\ calls (trace w') =
         [status_call "home1" "lab" "a" true; status_call "home1" "lab" "b" true;
          bme_call "home1" "lab" "a"; sps_call "home1" "lab" "a";
          status_call "home1" "lab" "a" false; status_call "home1" "lab" "b" false].
Proof.
  eexists. split; [vm_compute; reflexivity|]. vm_compute. reflexivity.
Qed.

(** C3 as stated fails.  With two devices and a broker that raises on the
    first offline publish (publish number 2 of a run stopped before its first
    round), the offline status of device ["a"] is the last call of the run:
    the one of device ["b"] is never attempted. *)
Lemma offline_not_independent :
  exists w',
    main (scripted 0 (Nat.eqb 2) 0 0) 1 two_devices world0
    = Some (Exc PublishError, w')
    /\ calls (trace w') =
         [status_call "home1" "lab" "a" true; status_call "home1" "lab" "b" true;
          status_call "home1" "lab" "a" false]
    /\ ~ In (status_call "home1" "lab" "b" false) (calls (trace w')).
Proof.
  eexists. split; [vm_compute; reflexivity|].
  split; [vm_compute; reflexivity|].
  vm_compute. intros [H|[H|[H|[]]]]; discriminate H.
Qed.
End Runs.

(* ================================================================== *)
(** * The events of a run *)

Section Adds.
Variable o : Oracle.
Import DeviceEmulator.

Lemma adds_still {A} (P : event -> Prop) (c : M A) (Q : A -> Prop) :
  (forall w, trace (c w).2 = trace w
             /\ match (c w).1 with Val a => Q a | Exc _ => True end) ->
  adds P c Q.
Proof.
  intros H w. destruct (H w) as [Ht HQ]. exists []. rewrite app_nil_r. auto.
Qed.

Lemma adds_bind {A B} (P : event -> Prop) (c : M A) (k : A -> M B)
    (Q1 : A -> Prop) (Q2 : B -> Prop) :
  adds P c Q1 -> (forall a, Q1 a -> adds P (k a) Q2) -> adds P (bind c k) Q2.
Proof.
  intros Hc Hk w. unfold bind. destruct (Hc w) as (n1 & T1 & F1 & HQ).
  destruct (c w) as [[a|e] w1]; simpl in *.
  - destruct (Hk a HQ w1) as (n2 & T2 & F2 & HQ2).
    exists (n1 ++ n2). rewrite T2, T1, app_assoc.
    repeat split; [now apply Forall_app|exact HQ2].
  - now exists n1.
Qed.

Lemma adds_weaken {A} (P : event -> Prop) (c : M A) (Q Q' : A -> Prop) :
  adds P c Q -> (forall a, Q a -> Q' a) -> adds P c Q'.
Proof.
  intros H HQ w. destruct (H w) as (new & T & F & Hr). exists new.
  repeat split; auto. destruct (c w).1; auto.
Qed.

Lemma adds_ret {A} (P : event -> Prop) (a : A) (Q : A -> Prop) :
  Q a -> adds P (ret a) Q.
Proof. intros HQ. apply adds_still. now intros w. Qed.

Lemma adds_publish (P : event -> Prop) (topic : string) (body : payload)
    (q : Z) (retain : bool) :
  P (EPublish topic body q retain) ->
  adds P (client_publish o topic body q retain) (fun _ => True).
Proof.
  intros HP w. exists [EPublish topic body q retain]. unfold client_publish.
  destruct (publish_outcome o (n_pub w)); simpl; auto.
Qed.

Lemma adds_sleep (P : event -> Prop) (secs : float) :
  P (ESleep secs) -> adds P (time_sleep o secs) (fun _ => True).
Proof.
  intros HP w. exists [ESleep secs]. unfold time_sleep.
  destruct (sleep_outcome o secs (n_clock w)); simpl; auto.
Qed.

Lemma adds_for_each {A S} (P : event -> Prop) (body : S -> A -> M S)
    (I : S -> Prop) (xs : list A) :
  (forall s x, I s -> x ∈ xs -> adds P (body s x) I) ->
  forall s, I s -> adds P (for_each body s xs) I.
Proof.
  induction xs as [|x xs IH]; intros Hb s Hs; simpl.
  - now apply adds_ret.
  - eapply adds_bind; [apply Hb; [assumption|left]|].
    intros s' Hs'. apply IH; [|assumption].
    intros s0 y H0 Hy. apply Hb; [assumption|now right].
Qed.

Lemma adds_map_each {A B} (P : event -> Prop) (g : A -> M B) (R : B -> Prop)
    (xs : list A) :
  (forall x, x ∈ xs -> adds P (g x) R) ->
  adds P (map_each g xs) (Forall R).
Proof.
  induction xs as [|x xs IH]; intros Hg; simpl.
  - apply adds_ret. constructor.
  - eapply adds_bind; [apply Hg; left|]. intros y Hy.
    eapply adds_bind; [apply IH; intros z Hz; apply Hg; now right|].
    intros ys Hys. apply adds_ret. now constructor.
Qed.
End Adds.

Section RunEvents.
Variable o : Oracle.
Variable args : Args.
Import DeviceEmulator.

Lemma status_call_allowed (dev : string) (online : bool) :
  dev ∈ arg_devices args ->
  status_call (arg_site args) (arg_room args) dev online ∈ allowed_calls args.
Proof.
  intros H. unfold allowed_calls, status_calls. rewrite !elem_of_app.
  destruct online; [left|right; left];
    apply (list_elem_of_fmap_2 (fun d => status_call _ _ d _)); exact H.
Qed.

Lemma telemetry_call_allowed (dev : string) (c : call) :
  dev ∈ arg_devices args ->
  c ∈ telemetry_calls (arg_site args) (arg_room args) dev (arg_dp_channels args) ->
  c ∈ allowed_calls args.
Proof.
  intros Hd Hc. unfold allowed_calls, round_calls. rewrite !elem_of_app.
  right; right. rewrite list_elem_of_In, in_flat_map.
  exists dev. now rewrite <- !list_elem_of_In.
Qed.

Lemma member_same (e e' : DeviceEmulator.t) :
  member args e -> same_device e e' -> member args e'.
Proof.
  unfold member, same_device. intros (? & ? & ? & ? & ?) (? & ? & ? & ? & ?).
  repeat split; congruence.
Qed.

Lemma adds_publish_status (e : DeviceEmulator.t) (online : bool) :
  member args e ->
  adds (running_ok o args) (publish_status o e online) (fun _ => True).
Proof.
  intros (Hs & Hr & Hd & Hq & _). unfold publish_status.
  eapply adds_bind with (Q1 := fun rssi => (-70 <= rssi <= -45)%Z).
  { apply adds_still. intros w. split; [reflexivity|]. cbn [randint fst].
    pose proof (Z.mod_pos_bound (rand_bits o (n_rng w)) (-45 - -70 + 1) ltac:(lia)).
    lia. }
  intros rssi Hrssi.
  eapply adds_bind with (Q1 := fun now => exists k, now = clock_text o k).
  { apply adds_still. intros w. split; [reflexivity|]. now exists (n_clock w). }
  intros now Hnow. apply adds_publish.
  cbn [running_ok kind_of is_status status_ok ts_of Status.ts].
  repeat split; try assumption; try apply Hrssi.
  change (topic_status e) with (call_topic (status_call (site e) (room e) (device e) online)).
  rewrite Hs, Hr. now apply status_call_allowed.
Qed.

Lemma adds_announce (online : bool) (emus : list DeviceEmulator.t) :
  Forall (member args) emus ->
  adds (running_ok o args) (announce o online emus) (fun _ => True).
Proof.
  intros Hm. unfold announce.
  apply adds_for_each with (I := fun _ : unit => True); [|exact I].
  intros [] e _ He. apply adds_publish_status.
  rewrite Forall_forall in Hm. now apply Hm.
Qed.

Lemma adds_publish_dp (ts : string) (e : DeviceEmulator.t) (ch : Z) :
  (exists k, ts = clock_text o k) ->
  member args e -> ch ∈ arg_dp_channels args ->
  adds (running_ok o args) (publish_dp o ts e ch) (member args).
Proof.
  intros Hts Hm Hch. unfold publish_dp.
  eapply adds_bind with (Q1 := fun pe => same_device e pe.2 /\ Dp.ts pe.1 = ts).
  { apply adds_still. intros w. unfold _dp_payload.
    destruct (dp_walk e !! ch) as [walk|]; [|now split].
    unfold bind. rewrite next_stepped. split; [reflexivity|]. repeat split. }
  intros [p e1] [Hs Hp]. pose proof (member_same _ _ Hm Hs) as Hm1.
  eapply adds_bind with (Q1 := fun _ => True).
  - apply adds_publish. cbn [running_ok kind_of is_status status_ok ts_of].
    destruct Hm1 as (Hs1 & Hr1 & Hd1 & Hq1 & _). cbn [fst] in Hp. rewrite Hp.
    repeat split; try assumption.
    apply (telemetry_call_allowed (device e1)); [assumption|].
    rewrite <- Hs1, <- Hr1. unfold telemetry_calls. right; right.
    apply (list_elem_of_fmap_2 (dp_call _ _ _)). exact Hch.
  - intros _ _. now apply adds_ret.
Qed.

Lemma adds_publish_once (e : DeviceEmulator.t) :
  member args e ->
  adds (running_ok o args) (publish_once o e) (member args).
Proof.
  intros Hm. unfold publish_once.
  eapply adds_bind with (Q1 := fun ts => exists k, ts = clock_text o k).
  { apply adds_still. intros w. split; [reflexivity|]. now exists (n_clock w). }
  intros ts Hts.
  eapply adds_bind with (Q1 := fun pe => same_device e pe.2 /\ Bme.ts pe.1 = ts).
  { apply adds_still. intros w. rewrite bme_payload_eq. repeat split. }
  intros [p1 e1] [Hs1 Hp1]. pose proof (member_same _ _ Hm Hs1) as Hm1.
  eapply adds_bind with (Q1 := fun _ => True).
  { apply adds_publish. cbn [running_ok kind_of is_status status_ok ts_of].
    destruct Hm1 as (Hs & Hr & Hd & Hq & _). cbn [fst] in Hp1. rewrite Hp1.
    repeat split; try assumption.
    apply (telemetry_call_allowed (device e1)); [assumption|].
    rewrite <- Hs, <- Hr. left. }
  intros _ _.
  eapply adds_bind with (Q1 := fun pe => same_device e1 pe.2 /\ Sps.ts pe.1 = ts).
  { apply adds_still. intros w. rewrite sps_payload_eq. repeat split. }
  intros [p2 e2] [Hs2 Hp2]. pose proof (member_same _ _ Hm1 Hs2) as Hm2.
  eapply adds_bind with (Q1 := fun _ => True).
  { apply adds_publish. cbn [running_ok kind_of is_status status_ok ts_of].
    destruct Hm2 as (Hs & Hr & Hd & Hq & _). cbn [fst] in Hp2. rewrite Hp2.
    repeat split; try assumption.
    apply (telemetry_call_allowed (device e2)); [assumption|].
    rewrite <- Hs, <- Hr. right; left. }
  intros _ _.
  apply adds_for_each; [|assumption].
  intros s ch Hms Hch. apply adds_publish_dp; [assumption..|].
  destruct Hm2 as (_ & _ & _ & _ & <-). exact Hch.
Qed.

Lemma adds_loop_body (interval : float) (emus : list DeviceEmulator.t) :
  Forall (member args) emus ->
  adds (running_ok o args) (loop_body o interval emus) (Forall (member args)).
Proof.
  intros Hm. unfold loop_body.
  eapply adds_bind with (Q1 := fun _ => True).
  { apply adds_still. now intros w. }
  intros start _.
  eapply adds_bind.
  { apply adds_map_each with (R := member args). intros e He.
    apply adds_publish_once. rewrite Forall_forall in Hm. now apply Hm. }
  intros emus' Hm'.
  eapply adds_bind with (Q1 := fun _ => True).
  { apply adds_still. now intros w. }
  intros now _.
  eapply adds_bind with (Q1 := fun _ => True).
  - destruct (gtb _ _) eqn:E.
    + apply adds_sleep. exact E.
    + now apply adds_ret.
  - intros _ _. now apply adds_ret.
Qed.

Lemma main_loop_events (fuel : nat) :
  forall (emus : list DeviceEmulator.t) (w : World) res w',
    Forall (member args) emus ->
    main_loop o fuel (arg_interval args) emus w = Some (res, w') ->
    exists new, trace w' = trace w ++ new /\ Forall (running_ok o args) new.
Proof.
  induction fuel as [|fuel IH]; intros emus w res w' Hm; [discriminate|].
  cbn [main_loop read_stop_flag].
  destruct (stop_flag o (n_poll w)).
  - intros [= <- <-]. exists []. now rewrite app_nil_r.
  - destruct (adds_loop_body (arg_interval args) emus Hm (tick_poll w))
      as (n1 & T1 & F1 & HQ).
    destruct (loop_body o (arg_interval args) emus (tick_poll w)) as [[emus1|e] w1];
      cbn [fst snd tick_poll trace] in *.
    + intros E. destruct (IH emus1 w1 res w' HQ E) as (n2 & T2 & F2).
      exists (n1 ++ n2). rewrite T2, T1, app_assoc. split; [reflexivity|].
      now apply Forall_app.
    + intros [= <- <-]. now exists n1.
Qed.

Lemma fleet_member (emus : list DeviceEmulator.t) :
  fleet args emus -> Forall (member args) emus.
Proof.
  unfold fleet. intros H.
  assert (G : forall devs, Forall2 (fun dev e =>
              site e = arg_site args /\ room e = arg_room args /\ device e = dev
              /\ qos e = arg_qos args /\ dp_channels e = arg_dp_channels args
              /\ walks_ready e) devs emus ->
            (forall d, d ∈ devs -> d ∈ arg_devices args) ->
            Forall (member args) emus).
  { clear H. intros devs H. induction H as [|dev e devs emus (?&?&?&?&?&_) _ IH];
      intros Hsub; constructor.
    - repeat split; try assumption. subst dev. apply Hsub. left.
    - apply IH. intros d Hd. apply Hsub. now right. }
  apply (G _ H). auto.
Qed.

Lemma adds_startup :
  adds (running_ok o args) (startup o args) (fleet args).
Proof.
  unfold startup. eapply adds_bind with (Q1 := fleet args).
  - intros w. destruct (performs_create o args w) as (_ & _ & _ & Hc).
    assert (Hq : forall dev, adds (running_ok o args)
              (init o (arg_site args) (arg_room args) dev (arg_interval args)
                 (arg_qos args) (arg_dp_channels args)) (fun _ => True)).
    { intros dev. apply adds_still. intros w0. now rewrite init_eq. }
    destruct (adds_map_each (running_ok o args) _ (fun _ => True) (arg_devices args)
                (fun dev _ => Hq dev) w) as (new & T & F & _).
    exists new. repeat split; auto.
    destruct (map_each _ _ w).1; [apply Hc|exact I].
  - intros emus Hf. eapply adds_bind with (Q1 := fun _ => True).
    + apply adds_announce. now apply fleet_member.
    + intros _ _. now apply adds_ret.
Qed.

(** A run that ends consists of events of the configuration, closed by
    [loop_stop] and [disconnect] unless an online or offline announcement
    raised. *)
Lemma main_trace (fuel : nat) res w' :
  main o fuel args world0 = Some (res, w') ->
  exists body tail,
    trace w' = body ++ tail
    /\ Forall (running_ok o args) body
    /\ (tail = [ELoopStop; EDisconnect]
        \/ (tail = [] /\ res = Exc PublishError)).
Proof.
  unfold main.
  destruct (performs_startup o args world0) as (_ & _ & _ & Hr).
  destruct (adds_startup world0) as (n0 & T0 & F0 & Hf). cbn [trace world0 app] in T0.
  destruct (startup o args world0) as [[emus|e] w1]; cbn [fst snd] in *.
  2:{ destruct Hr as [_ ->]. intros [= <- <-]. exists n0, [].
      rewrite app_nil_r. auto. }
  clear Hr.
  destruct (main_loop o fuel (arg_interval args) emus w1) as [[r w2]|] eqn:E;
    [|discriminate].
  destruct (main_loop_events fuel emus w1 r w2 (fleet_member _ Hf) E) as (n1 & T1 & F1).
  intros [= E2]. unfold run_finally, shutdown in E2. cbn [fst snd] in E2.
  destruct (adds_announce false emus (fleet_member _ Hf) w2) as (n2 & T2 & F2 & _).
  destruct (performs_announce o false emus w2) as (_ & _ & _ & Hr2).
  unfold bind at 1 in E2.
  destruct (announce o false emus w2) as [[[]|e2] w3]; cbn [fst snd] in *.
  - exists (n0 ++ n1 ++ n2), [ELoopStop; EDisconnect].
    cbv [bind client_loop_stop client_disconnect] in E2. injection E2 as _ <-.
    split.
    + cbn. rewrite T2, T1, T0, <- !app_assoc. reflexivity.
    + split; [|now left]. repeat (apply Forall_app; split); assumption.
  - destruct Hr2 as [_ ->]. injection E2 as <- <-.
    exists (n0 ++ n1 ++ n2), []. split.
    + rewrite app_nil_r, T2, T1, T0, <- !app_assoc. reflexivity.
    + split; [|now right]. repeat (apply Forall_app; split); assumption.
Qed.

Lemma running_events (fuel : nat) res w' (e : event) :
  main o fuel args world0 = Some (res, w') ->
  e ∈ trace w' -> e <> ELoopStop -> e <> EDisconnect -> running_ok o args e.
Proof.
  intros E He H1 H2. destruct (main_trace fuel res w' E) as (body & tail & T & F & Ht).
  rewrite T, elem_of_app in He. destruct He as [He|He].
  - rewrite Forall_forall in F. now apply F.
  - destruct Ht as [->|[-> _]]; [|inversion He].
    apply elem_of_cons in He as [->|He]; [congruence|].
    apply elem_of_cons in He as [->|He]; [congruence|inversion He].
Qed.

(** X1.  Every [time.sleep] of a run that ends is given a duration above zero:
    a round that took the whole interval or longer, or whose clock readings
    leave no number, is followed by no sleep at all. *)
Theorem sleep_always_positive (fuel : nat) res w' :
  main o fuel args world0 = Some (res, w') ->
  Forall (fun secs => (0 <? secs)%float = true) (sleeps (trace w')).
Proof.
  intros E. rewrite Forall_forall. intros secs Hs.
  unfold sleeps in Hs. apply list_elem_of_omap in Hs as (e & He & Hse).
  destruct e; try discriminate. injection Hse as ->.
  exact (running_events fuel res w' _ E He ltac:(discriminate) ltac:(discriminate)).
Qed.

(** X2.  Every publish of a run that ends uses the configured QoS and one of
    the topics of a configured device; status snapshots are retained and
    telemetry is not. *)
Theorem publishes_follow_configuration (fuel : nat) res w'
    (topic : string) (body : payload) (q : Z) (retain : bool) :
  main o fuel args world0 = Some (res, w') ->
  EPublish topic body q retain ∈ trace w' ->
  q = arg_qos args
  /\ retain = is_status body
  /\ {| call_topic := topic; call_kind := kind_of body; call_retain := retain |}
       ∈ allowed_calls args.
Proof.
  intros E He.
  destruct (running_events fuel res w' _ E He ltac:(discriminate) ltac:(discriminate))
    as (Hq & Hc & Hr & _ & _).
  auto.
Qed.

(** X3.  Every status snapshot of a run that ends carries the firmware tag
    [emu-1.1.0] and a signal strength from -70 to -45 dBm, whatever the
    generator's integers. *)
Theorem status_snapshot_content (fuel : nat) res w'
    (topic : string) (p : Status.t) (q : Z) (retain : bool) :
  main o fuel args world0 = Some (res, w') ->
  EPublish topic (PStatus p) q retain ∈ trace w' ->
  Status.fw p = "emu-1.1.0"%string /\ (-70 <= Status.rssi_dbm p <= -45)%Z.
Proof.
  intros E He.
  destruct (running_events fuel res w' _ E He ltac:(discriminate) ltac:(discriminate))
    as (_ & _ & _ & Hs & _).
  exact Hs.
Qed.


(** X5.  When an online announcement raises, the exception leaves [main] at
    once: no sampling round, no test of the stop flag, no offline
    announcement, and neither [loop_stop] nor [disconnect]. *)
Theorem online_failure_skips_teardown (fuel : nat) :
  all_return o 0 (length (arg_devices args)) = false ->
  exists w',
    main o fuel args world0 = Some (Exc PublishError, w')
    /\ calls (trace w') = attempted o 0 (status_calls args true)
    /\ (ELoopStop ∉ trace w') /\ (EDisconnect ∉ trace w')
    /\ n_poll w' = 0.
Proof.
  intros Hfail. unfold main.
  destruct (performs_startup o args world0) as (Hc & _ & Hp & Hr).
  destruct (adds_startup world0) as (n0 & T0 & F0 & _). cbn [trace world0 app] in T0.
  unfold status_calls in Hr. rewrite length_map in Hr. cbn [n_pub world0] in Hr.
  destruct (startup o args world0) as [[emus|e] w1]; cbn [fst snd] in *.
  { destruct Hr as [Hr _]. congruence. }
  destruct Hr as [_ ->]. exists w1. rewrite Forall_forall in F0.
  repeat split; [exact Hc| | |exact Hp]; rewrite T0; intros H; exact (F0 _ H).
Qed.
End RunEvents.

Section RunInstances.
Local Open Scope string_scope.

(** Two devices and two rounds: the first takes 2 s of an interval of 5 s. *)
Lemma sleep_always_positive_witness :
  exists res w',
    main (scripted 2 no_failure 100 102) 5 two_devices world0 = Some (res, w')
    /\ Forall (fun secs => (0 <? secs)%float = true) (sleeps (trace w')).
Proof.
  destruct (main (scripted 2 no_failure 100 102) 5 two_devices world0)
    as [[res w']|] eqn:E.
  - exists res, w'. split; [reflexivity|].
    exact (sleep_always_positive _ _ 5 res w' E).
  - vm_compute in E. discriminate E.
Defined.

(** The first publish of that run: the online snapshot of device [a]. *)
Lemma publishes_follow_configuration_witness :
  exists res w' p,
    main (scripted 2 no_failure 100 102) 5 two_devices world0 = Some (res, w')
    /\ EPublish "iot/home1/lab/a/status" (PStatus p) 0 true ∈ trace w'
    /\ (0%Z = arg_qos two_devices
        /\ true = is_status (PStatus p)
        /\ {| call_topic := "iot/home1/lab/a/status";
              call_kind := kind_of (PStatus p); call_retain := true |}
             ∈ allowed_calls two_devices).
Proof.
  destruct (main (scripted 2 no_failure 100 102) 5 two_devices world0)
    as [[res w']|] eqn:E; [|vm_compute in E; discriminate E].
  pose proof E as E'. vm_compute in E'. injection E' as _ Hw.
  eexists _, _, _. split; [reflexivity|].
  assert (He : EPublish "iot/home1/lab/a/status"
                 (PStatus {| Status.online := true; Status.fw := "emu-1.1.0";
                             Status.rssi_dbm := -70; Status.ts := "t0" |}) 0 true
               ∈ trace w').
  { rewrite <- Hw. left. }
  split; [exact He|].
  exact (publishes_follow_configuration _ _ 5 res w' _ _ _ _ E He).
Defined.

Lemma status_snapshot_content_witness :
  exists res w' p,
    main (scripted 2 no_failure 100 102) 5 two_devices world0 = Some (res, w')
    /\ EPublish "iot/home1/lab/b/status" (PStatus p) 0 true ∈ trace w'
    /\ Status.fw p = "emu-1.1.0" /\ (-70 <= Status.rssi_dbm p <= -45)%Z.
Proof.
  destruct (main (scripted 2 no_failure 100 102) 5 two_devices world0)
    as [[res w']|] eqn:E; [|vm_compute in E; discriminate E].
  pose proof E as E'. vm_compute in E'. injection E' as _ Hw.
  eexists _, _, _. split; [reflexivity|].
  assert (He : EPublish "iot/home1/lab/b/status"
                 (PStatus {| Status.online := true; Status.fw := "emu-1.1.0";
                             Status.rssi_dbm := -70; Status.ts := "t1" |}) 0 true
               ∈ trace w').
  { rewrite <- Hw. right. left. }
  split; [exact He|].
  exact (status_snapshot_content _ _ 5 res w' _ _ _ _ E He).
Defined.


(** The broker refuses the second online snapshot. *)
Lemma online_failure_skips_teardown_witness :
  all_return (scripted 2 (Nat.eqb 1) 100 102) 0 (length (arg_devices two_devices)) = false
  /\ exists w',
       main (scripted 2 (Nat.eqb 1) 100 102) 5 two_devices world0
       = Some (Exc PublishError, w')
       /\ calls (trace w')
          = attempted (scripted 2 (Nat.eqb 1) 100 102) 0 (status_calls two_devices true)
       /\ (ELoopStop ∉ trace w') /\ (EDisconnect ∉ trace w')
       /\ n_poll w' = 0.
Proof.
  assert (H : all_return (scripted 2 (Nat.eqb 1) 100 102) 0
                (length (arg_devices two_devices)) = false) by reflexivity.
  split; [exact H|].
  exact (online_failure_skips_teardown (scripted 2 (Nat.eqb 1) 100 102) two_devices 5 H).
Defined.
End RunInstances.

(* ================================================================== *)
(** * Walks over ticks *)

Section WalkRanges.
Variable o : Oracle.
Import RandomWalk DeviceEmulator.

Lemma moved_trans (a b c : RandomWalk.t) : moved a b -> moved b c -> moved a c.
Proof.
  unfold moved, same_params, walk_ok.
  intros [(S1 & L1 & H1) _] [(S2 & L2 & H2) R2]. split.
  - repeat split; congruence.
  - intros Ha. apply R2. now rewrite L1, H1.
Qed.

Lemma stepped_moved (walk : RandomWalk.t) (k : nat) : moved walk (stepped o walk k).
Proof.
  split; [repeat split|]. intros Hok. unfold in_range, stepped, advanced. cbn [v lo hi set_v].
  now apply clamp_within.
Qed.

Lemma moved_params (a b : RandomWalk.t) (p : float * float * float) :
  moved a b -> has_params a p -> has_params b p.
Proof.
  unfold has_params. intros [(S & L & H) _] (S0 & L0 & H0). repeat split; congruence.
Qed.

Lemma moved_within (a b : RandomWalk.t) (p : float * float * float) :
  moved a b -> has_params a p -> (p.1.2 <=? p.2)%float = true ->
  within (v b) p.1.2 p.2.
Proof.
  intros [(S & L & H) R] (S0 & L0 & H0) Hle. unfold walk_ok, in_range in R.
  rewrite L, H, L0, H0 in R. now apply R.
Qed.

Lemma publish_dp_advances (ts : string) (s : DeviceEmulator.t) (c : Z) :
  adds (fun _ => True) (publish_dp o ts s c)
    (fun s1 => exists a0 a1,
       dp_walk s !! c = Some a0 /\ moved a0 a1
       /\ s1 = with_dp_walk s (<[c := a1]> (dp_walk s))).
Proof.
  intros w. unfold publish_dp, bind.
  destruct (dp_walk s !! c) as [a0|] eqn:E0.
  - rewrite (dp_payload_eq o s w c a0 ts E0). unfold client_publish.
    destruct (publish_outcome o _); eexists [_]; cbn [fst snd trace emit tick_pub];
      (split; [reflexivity|split; [repeat constructor|]]); [|exact I].
    exists a0, (stepped o a0 (n_rng w)).
    split; [reflexivity|split; [apply stepped_moved|reflexivity]].
  - rewrite (dp_payload_missing o s w c ts E0). exists []. rewrite app_nil_r.
    now repeat split.
Qed.

(** The loop over the channels advances the walk of each channel it
    passes and leaves the rest of the emulator alone. *)
Lemma dp_loop_advances (ts : string) (chs : list Z) :
  forall s : DeviceEmulator.t,
    adds (fun _ => True) (for_each (publish_dp o ts) s chs)
      (fun s' => s' = with_dp_walk s (dp_walk s')
                 /\ dp_advanced chs (dp_walk s) (dp_walk s')).
Proof.
  induction chs as [|c rest IH]; intros s.
  - apply adds_ret. split; [now destruct s|]. intros ch.
    destruct (dp_walk s !! ch); [right; split; [|reflexivity]|]; apply not_elem_of_nil.
  - cbn [for_each]. eapply adds_bind; [apply publish_dp_advances|].
    intros s1 (a0 & a1 & E0 & Hm & ->).
    eapply adds_weaken; [apply IH|]. intros s' [Hs' Hadv].
    cbn [dp_walk with_dp_walk] in Hadv. split.
    + rewrite Hs'. reflexivity.
    + intros ch. specialize (Hadv ch). destruct (decide (ch = c)) as [->|Hne].
      * rewrite lookup_insert_eq in Hadv. rewrite E0.
        destruct (dp_walk s' !! c) as [b|]; [|exact Hadv]. left.
        destruct Hadv as [Hm'|[_ ->]]; [|exact Hm].
        eapply moved_trans; [exact Hm|exact Hm'].
      * rewrite lookup_insert_ne in Hadv by congruence.
        destruct (dp_walk s !! ch) as [a|], (dp_walk s' !! ch) as [b|]; try exact Hadv.
        -- destruct Hadv as [Hm'|[Hn ->]]; [now left|right]. split; [|reflexivity].
           rewrite not_elem_of_cons. auto.
        -- rewrite not_elem_of_cons. auto.
Qed.
Lemma stepped_params (walk : RandomWalk.t) (k : nat) (p : float * float * float) :
  has_params walk p -> has_params (stepped o walk k) p.
Proof. apply moved_params, stepped_moved. Qed.

Lemma stepped_within (walk : RandomWalk.t) (k : nat) (p : float * float * float) :
  has_params walk p -> (p.1.2 <=? p.2)%float = true ->
  within (v (stepped o walk k)) p.1.2 p.2.
Proof. apply moved_within, stepped_moved. Qed.

Lemma pm25_start_params (self : DeviceEmulator.t) (w : World) (p : float * float * float) :
  has_params (pm25 self) p -> has_params (sps_pm25_start o self w) p.
Proof. unfold sps_pm25_start. now destruct (pm_fires o w). Qed.

Lemma pm10_start_params (self : DeviceEmulator.t) (w : World) (p : float * float * float) :
  has_params (pm10 self) p -> has_params (sps_pm10_start o self w) p.
Proof. unfold sps_pm10_start. now destruct (pm_fires o w). Qed.

(** The emulator a tick returns: the seven environmental walks advanced,
    then the four particulate ones, then those of the channels. *)
Lemma publish_once_walks (e : DeviceEmulator.t) :
  adds (fun _ => True) (publish_once o e)
    (fun e' => exists w1 w2,
       let e1 := with_bme e (bme_temp o e w1) (bme_rh o e w1) (bme_press o e w1)
                   (bme_gas o e w1) (bme_iaq o e w1) (bme_voc o e w1) (bme_co2 o e w1) in
       let e2 := with_sps e1 (sps_pm1 o e1 w2) (sps_pm25 o e1 w2) (sps_pm4 o e1 w2)
                   (sps_pm10 o e1 w2) in
       e' = with_dp_walk e2 (dp_walk e')
       /\ dp_advanced (dp_channels e) (dp_walk e) (dp_walk e')).
Proof.
  unfold publish_once.
  eapply adds_bind with (Q1 := fun _ => True).
  { apply adds_still. now intros w. }
  intros ts _.
  eapply adds_bind with
    (Q1 := fun pe => exists w1,
       pe.2 = with_bme e (bme_temp o e w1) (bme_rh o e w1) (bme_press o e w1)
                (bme_gas o e w1) (bme_iaq o e w1) (bme_voc o e w1) (bme_co2 o e w1)).
  { apply adds_still. intros w. rewrite bme_payload_eq. split; [reflexivity|].
    now exists w. }
  intros [p1 e1] [w1 He1]. cbn [snd] in He1.
  eapply adds_bind with (Q1 := fun _ => True); [now apply adds_publish|].
  intros _ _.
  eapply adds_bind with
    (Q1 := fun pe => exists w2,
       pe.2 = with_sps e1 (sps_pm1 o e1 w2) (sps_pm25 o e1 w2) (sps_pm4 o e1 w2)
                (sps_pm10 o e1 w2)).
  { apply adds_still. intros w. rewrite sps_payload_eq. split; [reflexivity|].
    now exists w. }
  intros [p2 e2] [w2 He2]. cbn [snd] in He2.
  eapply adds_bind with (Q1 := fun _ => True); [now apply adds_publish|].
  intros _ _.
  eapply adds_weaken; [apply dp_loop_advances|].
  intros e' [He' Hadv]. exists w1, w2. cbv zeta. rewrite <- He1, <- He2.
  split; [exact He'|]. rewrite He2, He1 in Hadv. exact Hadv.
Qed.

Lemma advanced_designed (chs : list Z) (m0 m : gmap Z RandomWalk.t)
    (p : float * float * float) :
  dp_advanced chs m0 m ->
  (forall ch walk, m0 !! ch = Some walk -> has_params walk p) ->
  forall ch walk, m !! ch = Some walk -> has_params walk p.
Proof.
  intros Hadv H0 ch b Hb. specialize (Hadv ch). rewrite Hb in Hadv.
  destruct (m0 !! ch) as [a|] eqn:Ea; [|contradiction].
  destruct Hadv as [Hm|[_ ->]]; [|now apply (H0 ch)].
  eapply moved_params; [exact Hm|now apply (H0 ch)].
Qed.

Lemma advanced_within (chs : list Z) (m0 m : gmap Z RandomWalk.t)
    (p : float * float * float) :
  dp_advanced chs m0 m ->
  (forall ch walk, m0 !! ch = Some walk -> has_params walk p) ->
  (p.1.2 <=? p.2)%float = true ->
  forall ch, ch ∈ chs ->
    exists walk, m !! ch = Some walk /\ within (v walk) p.1.2 p.2.
Proof.
  intros Hadv H0 Hle ch Hch. specialize (Hadv ch).
  destruct (m0 !! ch) as [a|] eqn:Ea, (m !! ch) as [b|] eqn:Eb; try contradiction.
  exists b. split; [reflexivity|].
  destruct Hadv as [Hm|[Hn _]]; [|contradiction].
  eapply moved_within; [exact Hm|now apply (H0 ch)|exact Hle].
Qed.

Lemma tick_walks (e : DeviceEmulator.t) :
  designed e ->
  adds (fun _ => True) (publish_once o e)
    (fun e' => designed e' /\ in_ranges e' /\ walks_ready e').
Proof.
  intros [Hf Hdp]. eapply adds_weaken; [apply publish_once_walks|].
  intros e' (w1 & w2 & He' & Hadv). cbv zeta in He'.
  unfold fixed_walks in Hf.
  repeat match goal with
         | H : Forall _ (_ :: _) |- _ => apply Forall_cons_1 in H as [? H]
         end.
  cbn [fst snd] in *.
  assert (Hchs : dp_channels e' = dp_channels e) by (rewrite He'; reflexivity).
  split; [|split].
  - split.
    + rewrite He'. unfold fixed_walks.
      repeat apply Forall_cons_2; try apply Forall_nil_2; cbn;
        repeat first [apply stepped_params | apply pm25_start_params
                     | apply pm10_start_params]; assumption.
    + exact (advanced_designed _ _ _ _ Hadv Hdp).
  - split.
    + rewrite He'. unfold fixed_walks.
      repeat apply Forall_cons_2; try apply Forall_nil_2; cbn;
        (eapply (stepped_within _ _ (_, _, _)); [|reflexivity]);
        repeat first [apply pm25_start_params | apply pm10_start_params]; eassumption.
    + rewrite Hchs. exact (advanced_within _ _ _ (3, -300, 20)%float Hadv Hdp eq_refl).
  - intros ch Hch. rewrite Hchs in Hch.
    destruct (advanced_within _ _ _ (3, -300, 20)%float Hadv Hdp eq_refl ch Hch)
      as (b & -> & _). eauto.
Qed.

Lemma loop_body_walks (interval : float) (emus : list DeviceEmulator.t) :
  Forall designed emus ->
  adds (fun _ => True) (loop_body o interval emus)
    (Forall (fun e' => designed e' /\ in_ranges e' /\ walks_ready e')).
Proof.
  intros Hd. unfold loop_body.
  eapply adds_bind with (Q1 := fun _ => True).
  { apply adds_still. now intros w. }
  intros start _. eapply adds_bind.
  { apply adds_map_each. intros e He. apply tick_walks.
    rewrite Forall_forall in Hd. now apply Hd. }
  intros emus' H'.
  eapply adds_bind with (Q1 := fun _ => True).
  { apply adds_still. now intros w. }
  intros now _.
  eapply adds_bind with (Q1 := fun _ => True).
  - destruct (gtb _ _).
    + now apply adds_sleep.
    + now apply adds_ret.
  - intros _ _. now apply adds_ret.
Qed.

(** X6.  A tick keeps the step and the bounds of every walk and leaves every
    walk it advanced, which is each of them, within its bounds; with a walk
    for every channel, its only exception is the broker's. *)
Theorem tick_keeps_walks_in_range (e : DeviceEmulator.t) (w : World) :
  designed e -> walks_ready e ->
  match (publish_once o e w).1 with
  | Val e' => designed e' /\ walks_ready e' /\ in_ranges e'
  | Exc x => x = PublishError
  end.
Proof.
  intros Hd Hr. destruct (tick_walks e Hd w) as (_ & _ & _ & Hw).
  destruct (performs_publish_once o e Hr w) as (_ & _ & _ & Hx).
  destruct (publish_once o e w).1 as [e'|x]; [tauto|apply Hx].
Qed.

(** X7.  [__init__] gives every walk the step and the bounds of its quantity
    and stores a pressure walk for exactly the configured channels; it takes
    two draws and one per listed channel, and cannot raise. *)
Theorem init_builds_walks (site room dev : string) (interval : float) (qos : Z)
    (chs : list Z) (w : World) :
  exists e,
    init o site room dev interval qos chs w = (Val e, skip_rng (2 + length chs) w)
    /\ designed e
    /\ dp_channels e = chs
    /\ forall ch, is_Some (dp_walk e !! ch) <-> ch ∈ chs.
Proof.
  rewrite init_eq. eexists. split; [reflexivity|]. cbn [dp_walk dp_channels].
  split; [|split; [reflexivity|]].
  - split; [unfold fixed_walks; repeat constructor|].
    cbn [dp_walk]. intros ch walk E.
    destruct (seeded_lookup o chs ∅ (2 + n_rng w) ch) as [Hin Hout].
    destruct (decide (ch ∈ chs)) as [H|H].
    + destruct (Hin H) as (i & _ & E'). rewrite E' in E. injection E as <-.
      repeat split.
    + rewrite (Hout H), lookup_empty in E. discriminate.
  - intros ch. destruct (seeded_lookup o chs ∅ (2 + n_rng w) ch) as [Hin Hout].
    split.
    + intros Hs. destruct (decide (ch ∈ chs)) as [H|H]; [exact H|].
      rewrite (Hout H), lookup_empty in Hs. now destruct Hs.
    + intros H. destruct (Hin H) as (i & _ & E'). rewrite E'. eauto.
Qed.

(** X8.  When the loop of [main] ends without an exception, every walk of
    every emulator still has the step and the bounds of its quantity, and once
    a round has run, a value within them. *)
Theorem loop_keeps_walks_in_range (fuel : nat) :
  forall (interval : float) (emus emus' : list DeviceEmulator.t) (w w' : World),
    Forall designed emus ->
    main_loop o fuel interval emus w = Some (Val emus', w') ->
    Forall designed emus'
    /\ (stop_flag o (n_poll w) = false \/ Forall in_ranges emus ->
        Forall in_ranges emus').
Proof.
  induction fuel as [|fuel IH]; intros interval emus emus' w w' Hd; [discriminate|].
  cbn [main_loop read_stop_flag].
  destruct (stop_flag o (n_poll w)) eqn:Es.
  - intros [= <- <-]. split; [exact Hd|]. now intros [H|H].
  - destruct (loop_body_walks interval emus Hd (tick_poll w)) as (_ & _ & _ & HQ).
    destruct (loop_body o interval emus (tick_poll w)) as [[emus1|x] w1];
      cbn [fst snd] in *; [|discriminate].
    intros E.
    assert (Hd1 : Forall designed emus1) by (eapply Forall_impl; [exact HQ|]; intros ? (? & ? & ?); assumption).
    assert (Hr1 : Forall in_ranges emus1) by (eapply Forall_impl; [exact HQ|]; intros ? (? & ? & ?); assumption).
    destruct (IH interval emus1 emus' w1 w' Hd1 E) as [Hd' Hr'].
    split; [exact Hd'|]. intros _. apply Hr'. now right.
Qed.

Lemma rounds_stepped (walk : RandomWalk.t) (k ndigits : nat)
    (p : float * float * float) :
  has_params walk p -> (p.1.2 <=? p.2)%float = true ->
  rounds_of (py_round (v (stepped o walk k)) ndigits) ndigits p.1.2 p.2.
Proof. intros Hp Hle. eexists. split; [reflexivity|]. now apply stepped_within. Qed.

(** X9.  Every field of the environmental payload is the rounding of a value
    within the bounds of its quantity, an IAQ or CO2 excursion included. *)
Theorem bme_fields_in_range (e : DeviceEmulator.t) (ts : string) (w : World) :
  designed e ->
  match (_bme_payload o e ts w).1 with
  | Val (p, _) =>
      rounds_of (Bme.t_c p) 2 10 35 /\ rounds_of (Bme.rh_pct p) 1 15 90
      /\ rounds_of (Bme.p_pa p) 0 98000 104000
      /\ rounds_of (Bme.gas_ohm p) 0 1000 200000
      /\ rounds_of (Bme.iaq p) 1 5 250 /\ rounds_of (Bme.voc_index p) 1 0 500
      /\ rounds_of (Bme.co2_eq p) 0 400 2000
  | Exc _ => False
  end.
Proof.
  intros [Hf _]. rewrite bme_payload_eq. cbn [fst Bme.t_c Bme.rh_pct Bme.p_pa
    Bme.gas_ohm Bme.iaq Bme.voc_index Bme.co2_eq].
  unfold fixed_walks in Hf.
  repeat match goal with
         | H : Forall _ (_ :: _) |- _ => apply Forall_cons_1 in H as [? H]
         end.
  cbn [fst snd] in *.
  repeat split;
    try (eapply (rounds_stepped _ _ _ (_, _, _)); [eassumption|reflexivity]).
  - eexists. split; [reflexivity|]. unfold bme_iaq_val.
    destruct (iaq_fires o w); [now apply clamp_within|].
    eapply (stepped_within _ _ (_, _, _)); [eassumption|reflexivity].
  - eexists. split; [reflexivity|]. now apply clamp_within.
  - eexists. split; [reflexivity|]. unfold bme_co2_val.
    destruct (co2_fires o w); [now apply clamp_within|].
    eapply (stepped_within _ _ (_, _, _)); [eassumption|reflexivity].
Qed.

(** X10.  Every field of the particulate payload is the rounding of a value
    within the bounds of its quantity, in a tick with an event too. *)
Theorem sps_fields_in_range (e : DeviceEmulator.t) (ts : string) (w : World) :
  designed e ->
  match (_sps_payload o e ts w).1 with
  | Val (p, _) =>
      rounds_of (Sps.pm1_0 p) 1 0 100 /\ rounds_of (Sps.pm2_5 p) 1 0 200
      /\ rounds_of (Sps.pm4_0 p) 1 0 250 /\ rounds_of (Sps.pm10 p) 1 0 300
  | Exc _ => False
  end.
Proof.
  intros [Hf _]. rewrite sps_payload_eq.
  cbn [fst Sps.pm1_0 Sps.pm2_5 Sps.pm4_0 Sps.pm10].
  unfold fixed_walks in Hf.
  repeat match goal with
         | H : Forall _ (_ :: _) |- _ => apply Forall_cons_1 in H as [? H]
         end.
  cbn [fst snd] in *.
  repeat split;
    (eapply (rounds_stepped _ _ _ (_, _, _)); [|reflexivity]);
    repeat first [apply pm25_start_params | apply pm10_start_params]; eassumption.
Qed.
End WalkRanges.

(* ================================================================== *)
(** * Exceptions of a run *)

Section Answered.
Variable o : Oracle.












Variable args : Args.




End Answered.

(* ================================================================== *)
(** * A channel without its walk *)

Section MissingWalk.
Variable o : Oracle.
Hypothesis answered_all : forall k, publish_outcome o k <> Raised.
Import DeviceEmulator.

Lemma publish_returns (topic : string) (body : payload) (q : Z) (retain : bool)
    (w : World) :
  client_publish o topic body q retain w
  = (Val tt, tick_pub (emit (EPublish topic body q retain) w)).
Proof using answered_all.
  unfold client_publish. pose proof (answered_all (n_pub w)) as H.
  now destruct (publish_outcome o (n_pub w)).
Qed.

Lemma for_each_app {A S} (body : S -> A -> M S) (xs ys : list A) :
  forall (s : S) (w : World),
    for_each body s (xs ++ ys) w
    = match for_each body s xs w with
      | (Val s', w') => for_each body s' ys w'
      | (Exc x, w') => (Exc x, w')
      end.
Proof.
  induction xs as [|x xs IH]; intros s w; [reflexivity|].
  cbn [for_each app]. unfold bind. destruct (body s x w) as [[s1|x1] w1]; [|reflexivity].
  apply IH.
Qed.

Lemma dp_prefix_returns (ts : string) (ch : Z) (pre : list Z) :
  forall (s : DeviceEmulator.t) (w : World),
    (forall c, c ∈ pre -> is_Some (dp_walk s !! c)) ->
    dp_walk s !! ch = None ->
    exists s' w',
      for_each (publish_dp o ts) s pre w = (Val s', w')
      /\ dp_walk s' !! ch = None
      /\ calls (trace w')
         = calls (trace w) ++ map (dp_call (site s) (room s) (device s)) pre.
Proof using answered_all.
  induction pre as [|c pre IH]; intros s w Hpre Hch.
  - exists s, w. cbn [map]. now rewrite app_nil_r.
  - destruct (Hpre c ltac:(left)) as [a Ea].
    assert (Hne : c <> ch) by (intros ->; congruence).
    cbn [for_each]. unfold bind at 1. unfold publish_dp, bind.
    rewrite (dp_payload_eq o s w c a ts Ea), publish_returns. cbn [ret].
    destruct (IH (with_dp_walk s (<[c:=stepped o a (n_rng w)]> (dp_walk s)))
                (tick_pub (emit (EPublish
                   (topic_dp (with_dp_walk s (<[c:=stepped o a (n_rng w)]> (dp_walk s))) c)
                   (PDp {| Dp.dp_pa := py_round (RandomWalk.v (stepped o a (n_rng w))) 1;
                           Dp.ts := ts |})
                   (qos (with_dp_walk s (<[c:=stepped o a (n_rng w)]> (dp_walk s))))
                   false) (skip_rng 2 w))))
      as (s' & w' & E & Hch' & Hc).
    + intros c' Hc'. cbn [dp_walk with_dp_walk]. apply lookup_insert_is_Some'.
      right. apply Hpre. now right.
    + cbn [dp_walk with_dp_walk]. now rewrite lookup_insert_ne.
    + exists s', w'. split; [exact E|]. split; [exact Hch'|].
      rewrite Hc. cbn [trace tick_pub emit skip_rng site room device with_dp_walk map].
      unfold calls. rewrite omap_app. cbn [omap call_of app kind_of].
      rewrite <- app_assoc. reflexivity.
Qed.

(** X12.  A configured channel that has no walk makes the tick raise
    [KeyError] for it, once the environmental payload, the particulate payload
    and the pressure of the channels listed before it have been published. *)
Theorem missing_walk_raises_key_error (e : DeviceEmulator.t) (w : World)
    (pre post : list Z) (ch : Z) :
  dp_channels e = pre ++ ch :: post ->
  (forall c, c ∈ pre -> is_Some (dp_walk e !! c)) ->
  dp_walk e !! ch = None ->
  exists w',
    publish_once o e w = (Exc (KeyError ch), w')
    /\ calls (trace w')
       = calls (trace w)
         ++ bme_call (site e) (room e) (device e)
         :: sps_call (site e) (room e) (device e)
         :: map (dp_call (site e) (room e) (device e)) pre.
Proof using answered_all.
  intros Hchs Hpre Hch. unfold publish_once, bind, rfc3339_now.
  rewrite bme_payload_eq, publish_returns, sps_payload_eq, publish_returns.
  cbn [dp_channels with_sps with_bme]. rewrite Hchs, for_each_app.
  match goal with
  | |- context [for_each (publish_dp o ?ts) ?s pre ?w0] =>
      destruct (dp_prefix_returns ts ch pre s w0) as (s' & w' & E & Hch' & Hc);
        [exact Hpre|exact Hch|rewrite E]
  end.
  cbn [for_each]. unfold bind, publish_dp, bind.
  rewrite (dp_payload_missing o s' w' ch _ Hch'). exists w'. split; [reflexivity|].
  rewrite Hc. cbn [trace tick_pub emit skip_rng tick_clock site room device
                   with_sps with_bme].
  unfold calls. rewrite !omap_app. cbn [omap call_of app kind_of].
  rewrite <- !app_assoc. reflexivity.
Qed.
End MissingWalk.

(* ================================================================== *)
(** * [clamp] as a projection *)

Section ClampFacts.
Local Open Scope float_scope.

(** X13.  Clamping twice is clamping once, for every float and every pair of
    bounds: NaN, infinities and bounds in the wrong order included. *)
Theorem clamp_idempotent (x lo hi : float) :
  clamp (clamp x lo hi) lo hi = clamp x lo hi.
Proof.
  unfold clamp, py_max, py_min, gtb.
  destruct (x <? hi) eqn:Hx; destruct (lo <? x) eqn:Hl; destruct (lo <? hi) eqn:Hlh;
    repeat (rewrite ?Hx, ?Hl, ?Hlh, ?ltb_irrefl; cbv iota); reflexivity.
Qed.

(** X14.  With its bounds in order, [clamp] hands back its argument, as a
    number, exactly when the argument lies within the bounds; strictly inside
    them it is handed back bit for bit. *)
Theorem clamp_fixes_range (x lo hi : float) :
  (lo <=? hi) = true ->
  ((clamp x lo hi =? x) = true <-> within x lo hi)
  /\ ((lo <? x) = true -> (x <? hi) = true -> clamp x lo hi = x).
Proof.
  intros Hb. split; [split|].
  - intros E. exact (eqb_within _ _ _ _ E (clamp_within x lo hi Hb)).
  - intros [Hl Hh]. unfold clamp, py_max, py_min, gtb.
    destruct (x <? hi) eqn:Hx.
    + destruct (lo <? x) eqn:Hlx.
      * rewrite FloatAxioms.eqb_spec. unfold SFeqb. rewrite SFcompare_refl; [reflexivity|].
        exact (leb_not_nan_l _ _ Hh).
      * now apply leb_not_ltb_eqb.
    + assert (E : (x =? hi) = true) by now apply leb_not_ltb_eqb.
      destruct (lo <? hi) eqn:Hlh; [now rewrite eqb_sym|].
      apply leb_not_ltb_eqb; [exact Hl|].
      destruct (lo <? x) eqn:Hlx; [|reflexivity].
      rewrite ltb_spec in Hlx, Hlh. rewrite FloatAxioms.eqb_spec in E. unfold SFltb, SFeqb in *.
      destruct (SFcompare (Prim2SF x) (Prim2SF hi)) as [[]|] eqn:Ec; try discriminate.
      apply SFcompare_Eq_inv in Ec as [Ec|(s & s' & Ex & Eh)].
      -- rewrite Ec in Hlx. congruence.
      -- rewrite Ex in Hlx. rewrite Eh in Hlh.
         rewrite (SFcompare_zero_r _ s s') in Hlx. congruence.
  - intros Hl Hh. unfold clamp, py_max, py_min, gtb. now rewrite Hh, Hl.
Qed.
End ClampFacts.

(* ================================================================== *)
(** * Topics *)

Section Topics.
Import Ascii DeviceEmulator.
Local Open Scope string_scope.

Lemma list_ascii_app (a b : string) :
  list_ascii_of_string (a ++ b)
  = (list_ascii_of_string a ++ list_ascii_of_string b)%list.
Proof. induction a as [|c a IH]; simpl; [reflexivity|now rewrite IH]. Qed.

Lemma list_ascii_inj (a b : string) :
  list_ascii_of_string a = list_ascii_of_string b -> a = b.
Proof.
  intros H. rewrite <- (string_of_list_ascii_of_string a),
    <- (string_of_list_ascii_of_string b). now rewrite H.
Qed.

Lemma uint_numeric (d : Decimal.uint) :
  Forall numeric (list_ascii_of_string (NilEmpty.string_of_uint d)).
Proof.
  induction d; simpl; constructor; try assumption;
    unfold numeric; apply list_elem_of_In; simpl; tauto.
Qed.

Lemma uint_numeric0 (d : Decimal.uint) :
  Forall numeric (list_ascii_of_string (NilZero.string_of_uint d)).
Proof. destruct d; try apply uint_numeric. now repeat constructor. Qed.

Lemma str_of_int_numeric (n : Z) :
  Forall numeric (list_ascii_of_string (str_of_int n)).
Proof.
  unfold str_of_int. destruct (Z.to_int n) as [d|d]; simpl.
  - apply uint_numeric0.
  - constructor; [apply list_elem_of_In; simpl; tauto|apply uint_numeric0].
Qed.

Lemma str_of_int_inj (n n' : Z) : str_of_int n = str_of_int n' -> n = n'.
Proof.
  intros E. apply DecimalZ.to_int_inj.
  assert (H : forall z, NilZero.int_of_string (str_of_int z) = Some (Z.to_int z)).
  { intros z. apply NilZero.isi; destruct z; simpl; try discriminate;
      intros [= E']; now apply DecimalPos.Unsigned.to_uint_nonnil in E'. }
  pose proof (H n) as Hn. rewrite E, H in Hn. now injection Hn.
Qed.

Lemma topic_shape (e : DeviceEmulator.t) (k : topic_kind) :
  list_ascii_of_string (topic_of e k)
  = (((list_ascii_of_string "iot/" ++ list_ascii_of_string (site e)
       ++ list_ascii_of_string "/" ++ list_ascii_of_string (room e)
       ++ list_ascii_of_string "/")
      ++ list_ascii_of_string (device e) ++ topic_stem k)
     ++ "/"%char :: topic_tail k)%list.
Proof.
  destruct k; unfold topic_of, topic_status, topic_bme, topic_sps, topic_dp, base,
    topic_stem, topic_tail; rewrite !list_ascii_app; simpl;
    repeat (rewrite <- app_assoc; simpl); reflexivity.
Qed.

Lemma topic_tail_no_slash (k : topic_kind) : "/"%char ∉ topic_tail k.
Proof.
  assert (H : forall l, Forall numeric l -> "/"%char ∉ l).
  { intros l Hl Hin. rewrite Forall_forall in Hl. specialize (Hl _ Hin).
    apply list_elem_of_In in Hl. simpl in Hl.
    repeat (destruct Hl as [Hl|Hl]; [discriminate Hl|]). exact Hl. }
  destruct k; unfold topic_tail; try (apply H, str_of_int_numeric);
    intros Hin; apply list_elem_of_In in Hin; simpl in Hin;
    repeat (destruct Hin as [Hin|Hin]; [discriminate Hin|]); exact Hin.
Qed.

Lemma topic_tail_inj (k k' : topic_kind) : topic_tail k = topic_tail k' -> k = k'.
Proof.
  assert (H : forall ch c l, ~ numeric c -> topic_tail (TDp ch) <> (c :: l)%list).
  { intros ch c l Hc E. pose proof (str_of_int_numeric ch) as Hn.
    unfold topic_tail in E. rewrite E in Hn. now apply Forall_cons_1 in Hn as [Hn _]. }
  assert (Hb : ~ numeric "b"%char).
  { intros Hin. apply list_elem_of_In in Hin. simpl in Hin.
    repeat (destruct Hin as [Hin|Hin]; [discriminate Hin|]). exact Hin. }
  assert (Hs : ~ numeric "s"%char).
  { intros Hin. apply list_elem_of_In in Hin. simpl in Hin.
    repeat (destruct Hin as [Hin|Hin]; [discriminate Hin|]). exact Hin. }
  destruct k as [| | |ch], k' as [| | |ch']; intros E; try reflexivity;
    try discriminate E;
    try (exfalso; first [eapply (H _ _ _ Hb); exact E | eapply (H _ _ _ Hs); exact E
                        | eapply (H _ _ _ Hb); symmetry; exact E
                        | eapply (H _ _ _ Hs); symmetry; exact E]).
  f_equal. apply str_of_int_inj, list_ascii_inj. exact E.
Qed.

(** X15.  On one site and in one room, a topic names its device and what it is
    for: no two devices, no two kinds of message and no two channels share
    one, whatever the characters of the device names. *)
Theorem topic_names_device_and_kind (e1 e2 : DeviceEmulator.t) (k1 k2 : topic_kind) :
  site e1 = site e2 -> room e1 = room e2 ->
  topic_of e1 k1 = topic_of e2 k2 ->
  device e1 = device e2 /\ k1 = k2.
Proof.
  intros Hs Hr E. apply (f_equal list_ascii_of_string) in E.
  rewrite !topic_shape, Hs, Hr in E.
  apply not_elem_of_app_cons_inv_r in E as (Hpre & _ & Htail);
    try apply topic_tail_no_slash.
  apply topic_tail_inj in Htail as ->. split; [|reflexivity].
  apply app_inv_head in Hpre. apply app_inv_tail in Hpre.
  now apply list_ascii_inj.
Qed.
End Topics.

(* ================================================================== *)
(** * The text of a timestamp *)

Section Timestamps.
Import Ascii.
Local Open Scope string_scope.

Lemma length_append (a b : string) :
  String.length (a ++ b) = String.length a + String.length b.
Proof. induction a as [|c a IH]; simpl; [reflexivity|now f_equal]. Qed.

Lemma length_zeros (k : nat) : String.length (zeros k) = k.
Proof. induction k as [|k IH]; simpl; [reflexivity|now f_equal]. Qed.

(** *** A number below [10 ^ w] prints with at most [w] digits *)

Lemma succ_usize (d : Decimal.uint) :
  DecimalNat.Unsigned.usize (Decimal.Little.succ d) = DecimalNat.Unsigned.usize d
  \/ (DecimalNat.Unsigned.usize (Decimal.Little.succ d)
       = S (DecimalNat.Unsigned.usize d)
      /\ DecimalNat.Unsigned.of_lu (Decimal.Little.succ d)
         = 10 ^ DecimalNat.Unsigned.usize d).
Proof.
  induction d; simpl; try (left; reflexivity).
  - right. split; reflexivity.
  - destruct IHd as [->|[-> E]]; [now left|right].
    split; [reflexivity|]. rewrite E. lia.
Qed.

Lemma to_lu_size (n : nat) :
  1 <= n -> 10 ^ (DecimalNat.Unsigned.usize (DecimalNat.Unsigned.to_lu n) - 1) <= n.
Proof.
  induction n as [|n IH]; [lia|]. intros _.
  destruct n as [|n]; [simpl; lia|].
  specialize (IH ltac:(lia)). rewrite DecimalNat.Unsigned.to_lu_succ.
  destruct (succ_usize (DecimalNat.Unsigned.to_lu (S n))) as [->|[-> E]]; [lia|].
  rewrite <- DecimalNat.Unsigned.to_lu_succ, DecimalNat.Unsigned.of_to_lu in E.
  replace (S (DecimalNat.Unsigned.usize (DecimalNat.Unsigned.to_lu (S n))) - 1)
    with (DecimalNat.Unsigned.usize (DecimalNat.Unsigned.to_lu (S n))) by lia.
  lia.
Qed.

Lemma usize_nb_digits (d : Decimal.uint) :
  DecimalNat.Unsigned.usize d = Decimal.nb_digits d.
Proof. induction d; simpl; congruence. Qed.

Lemma length_string_of_uint (d : Decimal.uint) :
  String.length (NilEmpty.string_of_uint d) = Decimal.nb_digits d.
Proof. induction d; simpl; congruence. Qed.

Lemma to_lu_size_pos (n : nat) :
  1 <= DecimalNat.Unsigned.usize (DecimalNat.Unsigned.to_lu n).
Proof.
  induction n as [|n IH]; [simpl; lia|]. rewrite DecimalNat.Unsigned.to_lu_succ.
  destruct (succ_usize (DecimalNat.Unsigned.to_lu n)) as [->|[-> _]]; lia.
Qed.

Lemma length_decimal (w n : nat) :
  1 <= w -> n < 10 ^ w ->
  1 <= String.length (NilZero.string_of_uint (Nat.to_uint n)) <= w.
Proof.
  intros Hw Hn. rewrite DecimalNat.Unsigned.to_uint_alt.
  pose proof (to_lu_size_pos n) as Hpos.
  assert (E : String.length
                (NilZero.string_of_uint (Decimal.rev (DecimalNat.Unsigned.to_lu n)))
              = DecimalNat.Unsigned.usize (DecimalNat.Unsigned.to_lu n)).
  { rewrite usize_nb_digits, <- DecimalFacts.nb_digits_rev.
    rewrite usize_nb_digits, <- DecimalFacts.nb_digits_rev in Hpos.
    destruct (Decimal.rev (DecimalNat.Unsigned.to_lu n));
      try apply length_string_of_uint.
    simpl in Hpos. lia. }
  rewrite E. split; [exact Hpos|].
  destruct n as [|n]; [simpl; lia|].
  pose proof (to_lu_size (S n) ltac:(lia)) as Hs.
  assert (Hlt : 10 ^ (DecimalNat.Unsigned.usize (DecimalNat.Unsigned.to_lu (S n)) - 1)
                < 10 ^ w) by lia.
  apply Nat.pow_lt_mono_r_iff in Hlt; lia.
Qed.

Lemma length_zero_pad (w n : nat) :
  1 <= w -> n < 10 ^ w -> String.length (zero_pad w n) = w.
Proof.
  intros Hw Hn. unfold zero_pad. rewrite length_append, length_zeros.
  pose proof (length_decimal w n Hw Hn). lia.
Qed.

(** *** No plus sign before the offset *)

Lemma numeric_not_plus (l : list ascii) : Forall numeric l -> "+"%char ∉ l.
Proof.
  intros Hl Hin. rewrite Forall_forall in Hl. specialize (Hl _ Hin).
  apply list_elem_of_In in Hl. simpl in Hl.
  repeat (destruct Hl as [Hl|Hl]; [discriminate Hl|]). exact Hl.
Qed.

Lemma zero_pad_no_plus (w n : nat) : "+"%char ∉ list_ascii_of_string (zero_pad w n).
Proof.
  unfold zero_pad. rewrite list_ascii_app, not_elem_of_app. split.
  - induction (w - _) as [|k IH]; simpl; [apply not_elem_of_nil|].
    rewrite not_elem_of_cons. split; [discriminate|exact IH].
  - apply numeric_not_plus, uint_numeric0.
Qed.

Lemma isoformat_local_no_plus (dt : Datetime.t) :
  "+"%char ∉ list_ascii_of_string (isoformat_local dt).
Proof.
  unfold isoformat_local. rewrite !list_ascii_app, !not_elem_of_app.
  repeat split; try apply zero_pad_no_plus;
    try (simpl; rewrite not_elem_of_cons; split; [discriminate|apply not_elem_of_nil]).
  destruct (_ =? _)%nat; [apply not_elem_of_nil|].
  rewrite list_ascii_app, not_elem_of_app. split; [|apply zero_pad_no_plus].
  simpl. rewrite not_elem_of_cons. split; [discriminate|apply not_elem_of_nil].
Qed.

Lemma replace_offset (a : string) :
  "+"%char ∉ list_ascii_of_string a ->
  replace_from "+00:00" "Z" 0 (a ++ "+00:00") = a ++ "Z".
Proof.
  induction a as [|c a IH]; intros Hc; [reflexivity|].
  simpl in Hc. apply not_elem_of_cons in Hc as [Hne Hc].
  change (String c a ++ "+00:00") with (String c (a ++ "+00:00")).
  change (replace_from "+00:00" "Z" 0 (String c (a ++ "+00:00")))
    with (if String.prefix "+00:00" (String c (a ++ "+00:00"))
          then "Z" ++ replace_from "+00:00" "Z" 5 (a ++ "+00:00")
          else String c (replace_from "+00:00" "Z" 0 (a ++ "+00:00"))).
  change (String.prefix "+00:00" (String c (a ++ "+00:00")))
    with (if ascii_dec "+" c then String.prefix "00:00" (a ++ "+00:00") else false).
  destruct (ascii_dec "+" c) as [E|_]; [congruence|].
  now rewrite (IH Hc).
Qed.

Lemma rfc3339_text_eq (dt : Datetime.t) :
  rfc3339_text dt = isoformat_local dt ++ "Z".
Proof. apply replace_offset, isoformat_local_no_plus. Qed.

(** X16.  [rfc3339_now] returns the local date and time followed by [Z]: the
    replacement meets the offset and nothing else, so that no plus sign is
    left, and the fraction of a second is there only when the microseconds are
    not zero. *)
Theorem rfc3339_text_shape (dt : Datetime.t) :
  rfc3339_text dt = isoformat_local dt ++ "Z"
  /\ "+"%char ∉ list_ascii_of_string (rfc3339_text dt).
Proof.
  split; [apply rfc3339_text_eq|].
  rewrite rfc3339_text_eq, list_ascii_app, not_elem_of_app.
  split; [apply isoformat_local_no_plus|].
  simpl. rewrite not_elem_of_cons. split; [discriminate|apply not_elem_of_nil].
Qed.

(** X17.  The timestamp of a valid clock reading has 20 characters when the
    reading falls on a whole second and 27 otherwise. *)
Theorem rfc3339_text_length (dt : Datetime.t) :
  datetime_ok dt ->
  String.length (rfc3339_text dt)
  = if (Datetime.microsecond dt =? 0)%nat then 20 else 27.
Proof.
  intros ([_ Hy] & [_ Hmo] & [_ Hd] & Hh & Hmi & Hs & Hus).
  assert (H2 : forall n, n < 60 -> n < 10 ^ 2)
    by (intros n Hn; change (10 ^ 2) with 100; lia).
  rewrite rfc3339_text_eq. unfold isoformat_local.
  destruct (Datetime.microsecond dt =? 0)%nat;
    rewrite !length_append, !length_zero_pad
      by first [assumption | apply H2; lia | lia];
    reflexivity.
Qed.
End Timestamps.

Section PublishedTimestamps.
Variable o : Oracle.
Variable args : Args.
Local Open Scope string_scope.

(** X18.  When the clock texts of the environment are clock readings as
    [rfc3339_now] formats them, every payload published in a run that ends,
    status or telemetry, carries the local date and time of one of these
    readings followed by [Z]. *)
Theorem published_timestamps_end_in_Z (reading : nat -> Datetime.t)
    (fuel : nat) res w' (topic : string) (body : payload) (q : Z) (retain : bool) :
  (forall k, clock_text o k = rfc3339_text (reading k)) ->
  main o fuel args world0 = Some (res, w') ->
  EPublish topic body q retain ∈ trace w' ->
  exists k, ts_of body = isoformat_local (reading k) ++ "Z".
Proof.
  intros Hclock E He.
  destruct (running_events o args fuel res w' _ E He ltac:(discriminate)
              ltac:(discriminate)) as (_ & _ & _ & _ & k & Hk).
  exists k. now rewrite Hk, Hclock, rfc3339_text_eq.
Qed.
End PublishedTimestamps.

(* ================================================================== *)
(** * The lists of the command line *)

Section CommandLine.
Import Ascii Cli.
Local Open Scope string_scope.

Lemma length_lstrip (blank : ascii -> bool) (s : string) :
  String.length (lstrip blank s) <= String.length s.
Proof.
  induction s as [|c s IH]; simpl; [lia|]. destruct (blank c); simpl; lia.
Qed.

Lemma lstrip_idem (blank : ascii -> bool) (s : string) :
  lstrip blank (lstrip blank s) = lstrip blank s.
Proof.
  induction s as [|c s IH]; simpl; [reflexivity|].
  destruct (blank c) eqn:E; [exact IH|]. simpl. now rewrite E.
Qed.

Lemma rstrip_idem (blank : ascii -> bool) (s : string) :
  rstrip blank (rstrip blank s) = rstrip blank s.
Proof.
  induction s as [|c s IH]; simpl; [reflexivity|].
  destruct (rstrip blank s) as [|d r] eqn:Er.
  - destruct (blank c) eqn:E; simpl; [reflexivity|now rewrite E].
  - change (rstrip blank (String c (String d r)))
      with (match rstrip blank (String d r) with
            | "" => if blank c then "" else String c ""
            | r0 => String c r0
            end).
    now rewrite IH.
Qed.

Lemma lstrip_fixed (blank : ascii -> bool) (c : ascii) (s : string) :
  lstrip blank (String c s) = String c s -> blank c = false.
Proof.
  simpl. destruct (blank c); [|reflexivity]. intros E.
  pose proof (length_lstrip blank s) as H. rewrite E in H. simpl in H. lia.
Qed.

Lemma lstrip_rstrip (blank : ascii -> bool) (t : string) :
  lstrip blank t = t -> lstrip blank (rstrip blank t) = rstrip blank t.
Proof.
  destruct t as [|c t]; [reflexivity|]. intros E.
  apply lstrip_fixed in E. simpl.
  destruct (rstrip blank t); rewrite ?E; simpl; now rewrite E.
Qed.

Lemma str_strip_idem (s : string) : str_strip (str_strip s) = str_strip s.
Proof.
  unfold str_strip.
  rewrite (lstrip_rstrip is_space (lstrip is_space s)) by apply lstrip_idem.
  apply rstrip_idem.
Qed.

Lemma lstrip_chars (blank : ascii -> bool) (s : string) (c : ascii) :
  c ∈ list_ascii_of_string (lstrip blank s) -> c ∈ list_ascii_of_string s.
Proof.
  induction s as [|d s IH]; simpl; [auto|].
  destruct (blank d); [|auto]. intros H. right. auto.
Qed.

Lemma rstrip_chars (blank : ascii -> bool) (s : string) (c : ascii) :
  c ∈ list_ascii_of_string (rstrip blank s) -> c ∈ list_ascii_of_string s.
Proof.
  induction s as [|d s IH]; simpl; [auto|].
  destruct (rstrip blank s) as [|e r].
  - destruct (blank d); simpl; intros H; [inversion H|].
    apply elem_of_cons in H as [->|H]; [left|inversion H].
  - intros H. apply elem_of_cons in H as [->|H]; [left|right; auto].
Qed.

Lemma str_strip_comma_free (s : string) : comma_free s -> comma_free (str_strip s).
Proof.
  unfold comma_free, str_strip. intros H Hin.
  apply H. now apply rstrip_chars, lstrip_chars in Hin.
Qed.

Lemma split_comma_free (s : string) : Forall comma_free (str_split "," s).
Proof.
  unfold comma_free. change (ascii_of_nat 44) with ","%char.
  induction s as [|c s IH]; simpl.
  - repeat constructor. apply not_elem_of_nil.
  - destruct (eqb_spec c ",") as [->|Hne].
    + constructor; [apply not_elem_of_nil|exact IH].
    + destruct (str_split "," s) as [|x xs]; [repeat constructor|].
      * simpl. rewrite not_elem_of_cons. split; [congruence|].
        apply not_elem_of_nil.
      * apply Forall_cons_1 in IH as [Hx Hxs]. constructor; [|exact Hxs].
        simpl. rewrite not_elem_of_cons. split; [congruence|exact Hx].
Qed.

Lemma truthy_ne (s : string) : truthy s = true <-> s <> "".
Proof.
  unfold truthy. destruct (String.eqb_spec s ""); simpl; split; congruence.
Qed.

(** X19.  Every device name the comprehension keeps is not empty, has no blank
    at either end and no comma, whatever the text of the option. *)
Theorem devices_are_clean (text : string) : Forall clean_name (devices text).
Proof.
  unfold devices. rewrite Forall_forall. intros d Hd.
  apply list_elem_of_In, in_map_iff in Hd as (x & <- & Hx).
  apply filter_In in Hx as [Hx Ht]. repeat split.
  - now apply truthy_ne.
  - apply str_strip_idem.
  - apply str_strip_comma_free.
    pose proof (split_comma_free text) as H. rewrite Forall_forall in H.
    apply H. now apply list_elem_of_In.
Qed.

(** *** Joining, then splitting *)

Lemma split_free (a : string) : comma_free a -> str_split "," a = [a].
Proof.
  unfold comma_free. change (ascii_of_nat 44) with ","%char.
  induction a as [|c a IH]; simpl; [reflexivity|]. intros H.
  apply not_elem_of_cons in H as [Hne H].
  destruct (eqb_spec c ",") as [->|_]; [congruence|]. now rewrite (IH H).
Qed.

Lemma split_sep (a t : string) :
  comma_free a -> str_split "," (a ++ "," ++ t) = a :: str_split "," t.
Proof.
  unfold comma_free. change (ascii_of_nat 44) with ","%char.
  induction a as [|c a IH]; simpl; [reflexivity|]. intros H.
  apply not_elem_of_cons in H as [Hne H].
  destruct (eqb_spec c ",") as [->|_]; [congruence|]. now rewrite (IH H).
Qed.

Lemma split_concat (names : list string) :
  names <> [] -> Forall comma_free names ->
  str_split "," (String.concat "," names) = names.
Proof.
  induction names as [|a names IH]; [congruence|]. intros _ H.
  apply Forall_cons_1 in H as [Ha H]. destruct names as [|b names].
  - now apply split_free.
  - change (String.concat "," (a :: b :: names)) with (a ++ "," ++ String.concat "," (b :: names)).
    rewrite (split_sep _ _ Ha), IH; [reflexivity|discriminate|exact H].
Qed.

Lemma filter_all {A} (f : A -> bool) (l : list A) :
  Forall (fun x => f x = true) l -> List.filter f l = l.
Proof.
  induction 1 as [|x l Hx _ IH]; simpl; [reflexivity|]. now rewrite Hx, IH.
Qed.

Lemma map_fixed {A} (f : A -> A) (l : list A) :
  Forall (fun x => f x = x) l -> map f l = l.
Proof.
  induction 1 as [|x l Hx _ IH]; simpl; [reflexivity|]. now rewrite Hx, IH.
Qed.

(** X20.  Clean names joined by commas come back as they were, in order; no
    name at all comes back as no device. *)
Theorem devices_round_trip (names : list string) :
  Forall clean_name names -> devices (String.concat "," names) = names.
Proof.
  intros H. destruct names as [|a names]; [reflexivity|]. unfold devices.
  rewrite split_concat; [|discriminate|].
  - rewrite filter_all, map_fixed; [reflexivity| |].
    + eapply Forall_impl; [exact H|]. now intros d (_ & Hs & _).
    + eapply Forall_impl; [exact H|]. intros d (Hn & Hs & _).
      rewrite Hs. now apply truthy_ne.
  - eapply Forall_impl; [exact H|]. now intros d (_ & _ & Hc).
Qed.

(** *** Printed integers, read back *)

Lemma numeric_plain (c : ascii) :
  numeric c ->
  is_space c = false /\ is_int_space c = false /\ c <> ","%char.
Proof.
  intros H. apply list_elem_of_In in H. simpl in H.
  repeat (destruct H as [<-|H]; [repeat split; discriminate|]). contradiction.
Qed.

Lemma lstrip_plain (blank : ascii -> bool) (s : string) :
  Forall (fun c => blank c = false) (list_ascii_of_string s) -> lstrip blank s = s.
Proof.
  destruct s as [|c s]; [reflexivity|]. simpl. intros H.
  apply Forall_cons_1 in H as [-> _]. reflexivity.
Qed.

Lemma rstrip_plain (blank : ascii -> bool) (s : string) :
  Forall (fun c => blank c = false) (list_ascii_of_string s) -> rstrip blank s = s.
Proof.
  induction s as [|c s IH]; [reflexivity|]. simpl. intros H.
  apply Forall_cons_1 in H as [Hc H]. rewrite (IH H), Hc. now destruct s.
Qed.

Lemma str_of_int_plain (n : Z) :
  str_strip (str_of_int n) = str_of_int n
  /\ rstrip is_int_space (lstrip is_int_space (str_of_int n)) = str_of_int n
  /\ comma_free (str_of_int n).
Proof.
  pose proof (str_of_int_numeric n) as H. unfold str_strip. repeat split.
  - rewrite lstrip_plain, rstrip_plain; [reflexivity|..];
      (eapply Forall_impl; [exact H|]; intros c Hc; now apply numeric_plain).
  - rewrite lstrip_plain, rstrip_plain; [reflexivity|..];
      (eapply Forall_impl; [exact H|]; intros c Hc; now apply numeric_plain).
  - unfold comma_free. change (ascii_of_nat 44) with ","%char. intros Hin.
    rewrite Forall_forall in H. now apply (numeric_plain _ (H _ Hin)).
Qed.

Lemma digits_of_uint (d : Decimal.uint) (b : bool) :
  d <> Decimal.Nil \/ b = true ->
  digits_of (NilEmpty.string_of_uint d) b = Some (NilEmpty.string_of_uint d).
Proof.
  revert b. induction d; intros b Hb;
    try (simpl; rewrite IHd by (now right); reflexivity).
  destruct Hb as [Hb| ->]; [congruence|reflexivity].
Qed.

Lemma unsigned_literal_uint (d : Decimal.uint) :
  d <> Decimal.Nil ->
  (String.length (NilEmpty.string_of_uint d) <= max_str_digits)%nat ->
  unsigned_literal (NilEmpty.string_of_uint d) = Some (Z.of_uint d).
Proof.
  intros Hd Hlen. unfold unsigned_literal.
  rewrite digits_of_uint by now left.
  apply Nat.leb_le in Hlen. rewrite Hlen, NilEmpty.usu. reflexivity.
Qed.

Lemma of_to_uint (p : positive) : Z.of_uint (Pos.to_uint p) = Zpos p.
Proof. unfold Z.of_uint. now rewrite DecimalPos.Unsigned.of_to. Qed.

Lemma string_of_uint_pos (p : positive) :
  NilZero.string_of_uint (Pos.to_uint p) = NilEmpty.string_of_uint (Pos.to_uint p).
Proof.
  pose proof (DecimalPos.Unsigned.to_uint_nonnil p) as H.
  now destruct (Pos.to_uint p).
Qed.

Lemma py_int_str (n : Z) :
  (String.length (str_of_int n) <= max_str_digits)%nat ->
  py_int (str_of_int n) = Some n.
Proof.
  intros Hlen. unfold py_int.
  destruct (str_of_int_plain n) as (_ & -> & _).
  unfold str_of_int in *. destruct n as [|p|p]; [reflexivity| |];
    cbn [Z.to_int NilZero.string_of_int] in *;
    pose proof (DecimalPos.Unsigned.to_uint_nonnil p) as Hd;
    rewrite string_of_uint_pos in *.
  - rewrite <- (of_to_uint p), <- (unsigned_literal_uint _ Hd Hlen).
    destruct (Pos.to_uint p); [congruence|reflexivity..].
  - cbn [eqb Bool.eqb]. simpl (("-" =? "-")%char).
    rewrite unsigned_literal_uint; [|exact Hd|simpl in Hlen; lia].
    now rewrite of_to_uint.
Qed.

Lemma str_of_int_nonempty (n : Z) : str_of_int n <> "".
Proof.
  unfold str_of_int. destruct n as [|p|p]; cbn [Z.to_int NilZero.string_of_int];
    try discriminate.
  rewrite string_of_uint_pos.
  pose proof (DecimalPos.Unsigned.to_uint_nonnil p) as Hd.
  destruct (Pos.to_uint p); [congruence|discriminate..].
Qed.

Lemma ints_str (chs : list Z) :
  Forall (fun ch => (String.length (str_of_int ch) <= max_str_digits)%nat) chs ->
  ints (map str_of_int chs) = Some chs.
Proof.
  induction 1 as [|ch chs Hch _ IH]; simpl; [reflexivity|].
  now rewrite (py_int_str ch Hch), IH.
Qed.

(** X21.  Integers printed and joined by commas are read back as they were, in
    order, as long as none has more digits than [int] accepts. *)
Theorem dp_channels_round_trip (chs : list Z) :
  Forall (fun ch => (String.length (str_of_int ch) <= max_str_digits)%nat) chs ->
  dp_channels (String.concat "," (map str_of_int chs)) = Some chs.
Proof.
  intros H. destruct chs as [|ch chs]; [reflexivity|]. unfold dp_channels.
  rewrite split_concat; [|discriminate|].
  - rewrite filter_all; [now apply ints_str|].
    apply Forall_forall. intros x Hx.
    apply list_elem_of_In, in_map_iff in Hx as (n & <- & _).
    destruct (str_of_int_plain n) as (-> & _ & _).
    apply truthy_ne, str_of_int_nonempty.
  - apply Forall_forall. intros x Hx.
    apply list_elem_of_In, in_map_iff in Hx as (n & <- & _).
    apply str_of_int_plain.
Qed.
End CommandLine.

(* ================================================================== *)
(** * The properties at work *)

Section Instances.
Import DeviceEmulator.
Local Open Scope string_scope.

Lemma emu0_designed : designed emu0.
Proof.
  split; [unfold fixed_walks; repeat constructor|].
  intros ch walk E. unfold emu0 in E. cbn [dp_walk] in E.
  apply lookup_insert_Some in E as [[_ <-]|[_ E]]; [repeat split|].
  rewrite lookup_empty in E. discriminate.
Qed.

Lemma emu0_ready : walks_ready emu0.
Proof.
  intros ch Hch. unfold emu0 in *. cbn [dp_channels dp_walk] in *.
  apply list_elem_of_singleton in Hch as ->. rewrite lookup_insert_eq. eauto.
Qed.

Lemma tick_keeps_walks_in_range_witness :
  designed emu0 /\ walks_ready emu0
  /\ match (publish_once calm emu0 world0).1 with
     | Val e' => designed e' /\ walks_ready e' /\ in_ranges e'
     | Exc x => x = PublishError
     end.
Proof.
  split; [exact emu0_designed|]. split; [exact emu0_ready|].
  exact (tick_keeps_walks_in_range calm emu0 world0 emu0_designed emu0_ready).
Defined.

(** Two rounds of one device, then the stop flag. *)
Lemma loop_keeps_walks_in_range_witness :
  exists emus' w',
    main_loop (scripted 2 no_failure 100 102) 5 5%float [emu0] world0
    = Some (Val emus', w')
    /\ Forall designed emus'
    /\ (stop_flag (scripted 2 no_failure 100 102) (n_poll world0) = false
        \/ Forall in_ranges [emu0] -> Forall in_ranges emus').
Proof.
  destruct (main_loop (scripted 2 no_failure 100 102) 5 5%float [emu0] world0)
    as [[[emus'|x] w']|] eqn:E; [|vm_compute in E; discriminate E..].
  exists emus', w'. split; [reflexivity|].
  apply (loop_keeps_walks_in_range _ 5 5%float [emu0] emus' world0 w'); [|exact E].
  constructor; [exact emu0_designed|constructor].
Defined.

Lemma bme_fields_in_range_witness :
  designed emu0
  /\ match (_bme_payload calm emu0 "t0" world0).1 with
     | Val (p, _) =>
         rounds_of (Bme.t_c p) 2 10 35 /\ rounds_of (Bme.rh_pct p) 1 15 90
         /\ rounds_of (Bme.p_pa p) 0 98000 104000
         /\ rounds_of (Bme.gas_ohm p) 0 1000 200000
         /\ rounds_of (Bme.iaq p) 1 5 250 /\ rounds_of (Bme.voc_index p) 1 0 500
         /\ rounds_of (Bme.co2_eq p) 0 400 2000
     | Exc _ => False
     end.
Proof.
  split; [exact emu0_designed|].
  exact (bme_fields_in_range calm emu0 "t0" world0 emu0_designed).
Defined.

Lemma sps_fields_in_range_witness :
  designed emu0
  /\ match (_sps_payload calm emu0 "t0" world0).1 with
     | Val (p, _) =>
         rounds_of (Sps.pm1_0 p) 1 0 100 /\ rounds_of (Sps.pm2_5 p) 1 0 200
         /\ rounds_of (Sps.pm4_0 p) 1 0 250 /\ rounds_of (Sps.pm10 p) 1 0 300
     | Exc _ => False
     end.
Proof.
  split; [exact emu0_designed|].
  exact (sps_fields_in_range calm emu0 "t0" world0 emu0_designed).
Defined.


Lemma clamp_fixes_range_witness :
  (0 <=? 10)%float = true
  /\ (((clamp 7 0 10 =? 7)%float = true <-> within 7 0 10)
      /\ ((0 <? 7)%float = true -> (7 <? 10)%float = true -> clamp 7 0 10 = 7%float)).
Proof.
  split; [reflexivity|]. exact (clamp_fixes_range 7 0 10 eq_refl).
Defined.

Lemma topic_names_device_and_kind_witness :
  site emu0 = site (with_dp_walk emu0 ∅)
  /\ room emu0 = room (with_dp_walk emu0 ∅)
  /\ topic_of emu0 (TDp 1) = topic_of (with_dp_walk emu0 ∅) (TDp 1)
  /\ device emu0 = device (with_dp_walk emu0 ∅) /\ TDp 1 = TDp 1.
Proof.
  split; [reflexivity|]. split; [reflexivity|]. split; [reflexivity|].
  exact (topic_names_device_and_kind emu0 (with_dp_walk emu0 ∅) (TDp 1) (TDp 1)
           eq_refl eq_refl eq_refl).
Defined.

(** Midnight of 2 January 2024, to the second. *)
Lemma rfc3339_text_length_witness :
  datetime_ok {| Datetime.year := 2024; Datetime.month := 1; Datetime.day := 2;
                 Datetime.hour := 0; Datetime.minute := 0; Datetime.second := 0;
                 Datetime.microsecond := 0 |}
  /\ String.length
       (rfc3339_text {| Datetime.year := 2024; Datetime.month := 1; Datetime.day := 2;
                        Datetime.hour := 0; Datetime.minute := 0; Datetime.second := 0;
                        Datetime.microsecond := 0 |}) = 20.
Proof.
  assert (H : datetime_ok {| Datetime.year := 2024; Datetime.month := 1;
                             Datetime.day := 2; Datetime.hour := 0;
                             Datetime.minute := 0; Datetime.second := 0;
                             Datetime.microsecond := 0 |}).
  { unfold datetime_ok. cbn [Datetime.year Datetime.month Datetime.day Datetime.hour
      Datetime.minute Datetime.second Datetime.microsecond].
    repeat split; try lia; apply Nat.ltb_lt; vm_compute; reflexivity. }
  split; [exact H|]. exact (rfc3339_text_length _ H).
Defined.

Lemma devices_round_trip_witness :
  Forall clean_name ["pico2w-01"; "pico w 02"]
  /\ Cli.devices (String.concat "," ["pico2w-01"; "pico w 02"])
     = ["pico2w-01"; "pico w 02"].
Proof.
  assert (H : Forall clean_name ["pico2w-01"; "pico w 02"]).
  { repeat constructor; try discriminate; intros Hin;
      apply list_elem_of_In in Hin; simpl in Hin;
      repeat (destruct Hin as [Hin|Hin]; [discriminate Hin|]); exact Hin. }
  split; [exact H|]. exact (devices_round_trip _ H).
Defined.

Lemma dp_channels_round_trip_witness :
  Forall (fun ch => String.length (str_of_int ch) <= Cli.max_str_digits) [1; -20; 0]%Z
  /\ Cli.dp_channels (String.concat "," (map str_of_int [1; -20; 0]%Z))
     = Some [1; -20; 0]%Z.
Proof.
  assert (H : Forall (fun ch => String.length (str_of_int ch) <= Cli.max_str_digits)
                [1; -20; 0]%Z).
  { repeat constructor; apply Nat.leb_le; vm_compute; reflexivity. }
  split; [exact H|]. exact (dp_channels_round_trip _ H).
Defined.

(** The defaults of [--devices] and [--dp-channels], and a channel list
    with a separator that [strip] takes for a blank and [int] does not. *)
Example default_lists :
  Cli.devices "pico2w-01" = ["pico2w-01"]
  /\ Cli.dp_channels "1,2" = Some [1; 2]%Z
  /\ Cli.dp_channels " 1 , ,+2_0" = Some [1; 20]%Z
  /\ Cli.dp_channels "" = Some []
  /\ Cli.dp_channels (String (Ascii.ascii_of_nat 28) "") = Some []
  /\ Cli.dp_channels (String (Ascii.ascii_of_nat 28) "1") = None.
Proof. repeat split; vm_compute; reflexivity. Qed.

(** The first publish of a run under [dated]: the online snapshot of
    device [a], stamped at midnight. *)
Lemma published_timestamps_end_in_Z_witness :
  exists res w' p,
    (forall k, clock_text dated k = rfc3339_text (reading_at k))
    /\ main dated 3 two_devices world0 = Some (res, w')
    /\ EPublish "iot/home1/lab/a/status" (PStatus p) 0 true ∈ trace w'
    /\ Status.ts p = "2024-01-02T00:00:00Z"
    /\ exists k, ts_of (PStatus p) = isoformat_local (reading_at k) ++ "Z".
Proof.
  destruct (main dated 3 two_devices world0) as [[res w']|] eqn:E;
    [|vm_compute in E; discriminate E].
  pose proof E as E'. vm_compute in E'. injection E' as _ Hw.
  eexists _, _, _. split; [reflexivity|]. split; [reflexivity|].
  assert (He : EPublish "iot/home1/lab/a/status"
                 (PStatus {| Status.online := true; Status.fw := "emu-1.1.0";
                             Status.rssi_dbm := -70;
                             Status.ts := "2024-01-02T00:00:00Z" |}) 0 true
               ∈ trace w').
  { rewrite <- Hw. left. }
  split; [exact He|]. split; [reflexivity|].
  exact (published_timestamps_end_in_Z dated two_devices reading_at 3 res w' _ _ _ _
           (fun k => eq_refl) E He).
Defined.

Lemma missing_walk_raises_key_error_witness :
  (forall k, publish_outcome calm k <> Raised)
  /\ dp_channels emu0_plus = ([1%Z] ++ 2%Z :: [])%list
  /\ (forall c, c ∈ [1%Z] -> is_Some (dp_walk emu0_plus !! c))
  /\ dp_walk emu0_plus !! 2%Z = None
  /\ exists w',
       publish_once calm emu0_plus world0 = (Exc (KeyError 2), w')
       /\ calls (trace w')
          = [bme_call "home1" "lab" "pico2w-01"; sps_call "home1" "lab" "pico2w-01";
             dp_call "home1" "lab" "pico2w-01" 1].
Proof.
  assert (H1 : forall k, publish_outcome calm k <> Raised) by (intros k; discriminate).
  assert (H2 : forall c, c ∈ [1%Z] -> is_Some (dp_walk emu0_plus !! c)).
  { intros c Hc. apply list_elem_of_singleton in Hc as ->.
    unfold emu0_plus, emu0. cbn [dp_walk]. rewrite lookup_insert_eq. eauto. }
  assert (H3 : dp_walk emu0_plus !! 2%Z = None).
  { unfold emu0_plus, emu0. cbn [dp_walk].
    rewrite lookup_insert_ne by discriminate. apply lookup_empty. }
  split; [exact H1|]. split; [reflexivity|]. split; [exact H2|]. split; [exact H3|].
  exact (missing_walk_raises_key_error calm H1 emu0_plus world0 [1%Z] [] 2%Z
           eq_refl H2 H3).
Defined.
End Instances.
